(** * Email unsubscriber: a shallow embedding of [main.py]

    The program fetches recent messages, flattens each MIME tree to text
    ([get_content]), decodes the subject and sender ([decode_field]), flags a
    message as unwanted ([analyze_email]), looks for an unsubscribe link
    ([get_unsubscribe_url]) and hands the link to a browsing agent ([main]).

    Python values are modelled as follows.
    - [str] is [string]; a character is a code point below U+0100, so that
      [str.lower] acts character by character ([lower_char]).
    - [bytes] is [list byte].
    - an exception is a value of [exn], an instance of [Exception] or not
      ([is_exception]); a call that may raise returns a [result].
    - a [dict] is a [gmap] ([Tag.attrs], the dictionary [analyze_email]
      returns).
    The libraries the program calls (codec registry, [email.header], the HTML
    parser, the agent, the mail session) are Section variables, each of them
    allowed to raise; module
    [Reference] gives instances of them on small fragments, for running the
    program on concrete inputs. *)

From Stdlib Require Import Strings.String Strings.Ascii Strings.Byte NArith.
From stdpp Require Import base option list strings gmap.

Local Open Scope string_scope.
Local Open Scope list_scope.
Set Warnings "-register-all".

(** ** Python values *)

Module Py.

(** The exception classes that can reach the program. The first six are
    subclasses of [Exception], [OtherException] standing for any further
    subclass of [Exception], by class name. [NonException] stands for a class
    that derives from [BaseException] and not from [Exception]
    ([KeyboardInterrupt], [SystemExit], [GeneratorExit]), by class name. *)
Inductive exn : Type :=
| KeyError (key : string)
| TypeError
| UnicodeDecodeError
| LookupError
| HeaderParseError
| OtherException (cls : string)
| NonException (cls : string).

(** [isinstance(e, Exception)]: what [except Exception] catches. *)
Definition is_exception (e : exn) : bool :=
  match e with
  | NonException _ => false
  | _ => true
  end.

Inductive result (A : Type) : Type :=
| Ok (a : A)
| Raise (e : exn).
Arguments Ok {A} a.
Arguments Raise {A} e.

#[global] Instance result_ret : MRet result := fun _ a => Ok a.
#[global] Instance result_bind : MBind result := fun _ _ f m =>
  match m with
  | Ok a => f a
  | Raise e => Raise e
  end.

Definition returns {A} (m : result A) : bool :=
  match m with Ok _ => true | Raise _ => false end.

(** [str.lower] on one code point below U+0100: [A-Z] and the upper-case
    letters of the Latin-1 supplement (U+00C0..U+00DE without U+00D7) move up
    by 32; every other code point is its own lower case. *)
Definition lower_char (c : ascii) : ascii :=
  let n := N_of_ascii c in
  if ((65 <=? n) && (n <=? 90) ||
      (192 <=? n) && (n <=? 222) && negb (n =? 215))%N
  then ascii_of_N (n + 32)
  else c.

Fixpoint lower (s : string) : string :=
  match s with
  | EmptyString => EmptyString
  | String c s' => String (lower_char c) (lower s')
  end.

(** [needle in hay] on [str]: [needle] starts at some position of [hay]. *)
Fixpoint str_in (needle hay : string) : bool :=
  String.prefix needle hay ||
  match hay with
  | EmptyString => false
  | String _ hay' => str_in needle hay'
  end.

(** [sep.join(parts)]. *)
Fixpoint join (sep : string) (parts : list string) : string :=
  match parts with
  | [] => ""
  | p :: rest =>
      match rest with
      | [] => p
      | _ :: _ => p +:+ sep +:+ join sep rest
      end
  end.

(** [str(x)] for [x] a [str] or [None]. *)
Definition str_of (x : option string) : string :=
  match x with
  | None => "None"
  | Some s => s
  end.

(** Truth value of an optional [str]: [None] and the empty string are
    false. *)
Definition truthy (x : option string) : bool :=
  match x with
  | None => false
  | Some s => negb (String.eqb s "")
  end.

(** [x or default]. *)
Definition or_else (x : option string) (default : string) : string :=
  if truthy x then str_of x else default.

(** [l[-n:]] for [n > 0]. *)
Definition last_n {A} (n : nat) (l : list A) : list A :=
  drop (length l - n) l.

Definition newline : string := String (ascii_of_nat 10) "".

(** [d[key]] on a dictionary. *)
Definition dict_getitem {V} (d : gmap string V) (key : string) : result V :=
  match d !! key with
  | Some v => Ok v
  | None => Raise (KeyError key)
  end.

End Py.
Export Py.

(** ** The MIME tree and [get_content] *)

Module Mime.

(** A message part as [get_content] sees it. A leaf carries the value of
    [msg.get("Content-Disposition")], the bytes of
    [msg.get_payload(decode=True)] and [msg.get_content_charset()]; a
    multipart node carries [msg.get_payload()], its list of sub-parts. *)
Inductive Message : Type :=
| Leaf (content_disposition : option string) (payload : list byte)
       (content_charset : option string)
| Multipart (parts : list Message).

(** ["attachment" in str(msg.get("Content-Disposition"))]. *)
Definition is_attachment (content_disposition : option string) : bool :=
  str_in "attachment" (str_of content_disposition).

Section GetContent.
(** [payload.decode(encoding)], from Python's codec registry. *)
Variable bytes_decode : string -> list byte -> result string.

Definition decode_leaf (payload : list byte) (charset : option string)
  : result string :=
  if truthy charset then bytes_decode (str_of charset) payload
  else bytes_decode "utf-8" payload.

Fixpoint get_content (msg : Message) : result string :=
  match msg with
  | Multipart ps =>
      parts ← mapM get_content ps;
      mret (join newline parts)
  | Leaf content_disposition payload charset =>
      if negb (is_attachment content_disposition)
      then decode_leaf payload charset
      else Ok ""
  end.
End GetContent.

End Mime.
Export Mime.

(** ** Header fields and [decode_field] *)

Module Header.

(** What [msg.get(name)] returns for a header that is present: its value as
    [str], or, when the value holds raw 8-bit bytes, an
    [email.header.Header] object that holds these bytes as one chunk of
    charset unknown-8bit. *)
Inductive header_value : Type :=
| HeaderStr (s : string)
| Header8bit (raw : list byte).

(** One pair of the list [decode_header] returns: the segment, as [bytes] or
    as [str], and its charset. *)
Inductive segment : Type :=
| SegBytes (b : list byte)
| SegStr (s : string).

(** [ecre.search(header)], for the pattern of an encoded word
    [=?charset?[qQbB]?encoded?=]: the charset runs to the first [?], the
    encoded text stays on one line. *)
Fixpoint after_charset (s : string) : option string :=
  match s with
  | EmptyString => None
  | String c s' => if Ascii.eqb c "?" then Some s' else after_charset s'
  end.

Fixpoint closes_on_line (s : string) : bool :=
  String.prefix "?=" s ||
  match s with
  | EmptyString => false
  | String c s' =>
      if Ascii.eqb c (ascii_of_nat 10) then false else closes_on_line s'
  end.

Definition is_qb (c : ascii) : bool :=
  Ascii.eqb c "q" || Ascii.eqb c "Q" || Ascii.eqb c "b" || Ascii.eqb c "B".

Definition encoded_word_at (s : string) : bool :=
  match s with
  | String "=" (String "?" s1) =>
      match after_charset s1 with
      | Some (String e (String "?" s2)) => is_qb e && closes_on_line s2
      | _ => false
      end
  | _ => false
  end.

Fixpoint ecre_search (s : string) : bool :=
  encoded_word_at s ||
  match s with
  | EmptyString => false
  | String _ s' => ecre_search s'
  end.

Section DecodeField.
Variable bytes_decode : string -> list byte -> result string.
(** What [email.header.decode_header] returns for a header that holds an
    encoded word (it may raise [HeaderParseError]). *)
Variable decode_words : string -> result (list (segment * option string)).

(** [email.header.decode_header] on a [str]: a header with no encoded word
    comes back whole, with no charset. *)
Definition decode_header (header : string)
  : result (list (segment * option string)) :=
  if negb (ecre_search header) then Ok [(SegStr header, None)]
  else decode_words header.

(** [part.decode(encoding or "utf-8") if isinstance(part, bytes) else part] *)
Definition decode_segment (p : segment * option string) : result string :=
  match p.1 with
  | SegBytes part => bytes_decode (or_else p.2 "utf-8") part
  | SegStr part => Ok part
  end.

Definition decode_field (field : string) : result string :=
  decoded_header ← decode_header field;
  field_parts ← mapM decode_segment decoded_header;
  mret (join "" field_parts).

(** [decode_field(msg.get(name))]. A missing header is [None], on which
    [decode_header] raises [TypeError]. For a [Header] object
    [decode_header] returns its chunks, here the raw bytes with the charset
    unknown-8bit, and [decode_field] decodes and joins them as it does for a
    [str]. *)
Definition decode_field_of (header : option header_value) : result string :=
  match header with
  | Some (HeaderStr field) => decode_field field
  | Some (Header8bit raw) =>
      field_parts ← mapM decode_segment [(SegBytes raw, Some "unknown-8bit")];
      mret (join "" field_parts)
  | None => Raise TypeError
  end.
End DecodeField.

End Header.
Export Header.

(** ** The parse tree of BeautifulSoup *)

Module Soup.

(** A page element. [Comment] stands for every string node that is no
    visible text (comments, doctypes, declarations, processing
    instructions); [Tag.text] leaves those out. *)
Inductive node : Type :=
| Tag (name : string) (attrs : gmap string string) (contents : list node)
| NavigableString (s : string)
| Comment (s : string).

(** [tag.text]: the visible strings below the tag, joined in document
    order. *)
Fixpoint text (n : node) : string :=
  match n with
  | Tag _ _ contents => join "" (map text contents)
  | NavigableString s => s
  | Comment _ => ""
  end.

(** [tag.descendants]: every element below the tag, in document order. *)
Fixpoint descendants (n : node) : list node :=
  match n with
  | Tag _ _ contents => flat_map (fun c => c :: descendants c) contents
  | NavigableString _ | Comment _ => []
  end.

Definition is_tag_named (name : string) (n : node) : bool :=
  match n with
  | Tag name' _ _ => String.eqb name' name
  | NavigableString _ | Comment _ => false
  end.

(** [soup.find_all(name)]. *)
Definition find_all (name : string) (soup : node) : list node :=
  List.filter (is_tag_named name) (descendants soup).

(** [tag[key]], that is [tag.attrs[key]]. *)
Definition tag_getitem (n : node) (key : string) : result string :=
  match n with
  | Tag _ attrs _ => dict_getitem attrs key
  | NavigableString _ | Comment _ => Raise TypeError
  end.

(** The [BeautifulSoup] object: a tag named [[document]] above the parsed
    elements. *)
Definition document (contents : list node) : node :=
  Tag "[document]" ∅ contents.

End Soup.
Export Soup.

(** ** The application *)

Module App.

Record Email : Type := mkEmail {
  subject : string;
  content : string;
  from_address : string
}.

(** What the mail session hands over for one message id: the parsed message,
    with the values of [msg.get("Subject")] and [msg.get("From")]. *)
Record Fetched : Type := mkFetched {
  header_subject : option header_value;
  header_from : option header_value;
  body : Message
}.

Definition analyze_email (email_msg : Email) : gmap string bool :=
  if str_in "unsubscribe" (lower (content email_msg))
  then {[ "is_unwanted" := true ]}
  else {[ "is_unwanted" := false ]}.

Section LinkExtraction.
(** [BeautifulSoup(markup, "html.parser")]: the parsed document, or the
    exception of a parser that rejects the markup. *)
Variable BeautifulSoup : string -> result node.

(** The loop over [soup.find_all("a")]; [unsubscribe_links] is the list
    built so far. The second operand of [and] is evaluated only when the
    first holds. *)
Fixpoint collect_links (a_tags : list node) (unsubscribe_links : list string)
  : result (list string) :=
  match a_tags with
  | [] => Ok unsubscribe_links
  | a_tag :: rest =>
      if str_in "unsubscribe" (lower (text a_tag)) then
        href ← tag_getitem a_tag "href";
        if str_in "http" href
        then collect_links rest (unsubscribe_links ++ [href])
        else collect_links rest unsubscribe_links
      else collect_links rest unsubscribe_links
  end.

Definition get_unsubscribe_url (email_content : Email)
  : result (option string) :=
  soup ← BeautifulSoup (content email_content);
  unsubscribe_links ← collect_links (find_all "a" soup) [];
  if bool_decide (0 < length unsubscribe_links)
  then mret (last unsubscribe_links)
  else mret None.
End LinkExtraction.

Section ConnectToEmail.
Variable bytes_decode : string -> list byte -> result string.
Variable decode_words : string -> result (list (segment * option string)).
(** The mail session: the ids [mail.search] lists, and the parsed message
    [mail.fetch] and [email.message_from_bytes] give for an id. *)
Variable search_all : result (list string).
Variable fetch : string -> result Fetched.

Definition fetch_email (e_id : string) : result Email :=
  msg ← fetch e_id;
  decoded_subj ← decode_field_of bytes_decode decode_words (header_subject msg);
  decoded_from ← decode_field_of bytes_decode decode_words (header_from msg);
  content ← get_content bytes_decode (body msg);
  mret (mkEmail decoded_subj content decoded_from).

Definition connect_to_email : result (list Email) :=
  ids ← search_all;
  let email_ids := last_n 100 ids in
  mapM fetch_email email_ids.
End ConnectToEmail.

(** What [main] does that can be observed: its calls of [analyze_email],
    [get_unsubscribe_url] and [unsubscribe_from_email], the answer of the
    agent that [unsubscribe_from_email] prints, and the line
    ["Error while unsubscribing: {e}"] that [main] prints for a caught
    exception [e]. *)
Inductive event : Type :=
| CallAnalyze (email_msg : Email)
| CallGetUrl (email_msg : Email)
| CallUnsubscribe (url : string)
| Print (line : string)
| PrintError (e : exn).

Definition agent_prompt : string :=
  "Use the tools provided to unsubscribe from the email. The URL provided here"
  +:+ " is from an unsubscribe link originating in a marketing email. Nagivating to"
  +:+ " the URL should present a page or sequence that lets you click on buttons or"
  +:+ " links, or deselect checkboxes in order to unsubscribe from all marketing"
  +:+ " emails. With the browser tools provided, read and understand the content on"
  +:+ " the page and then interact with it to unsubscribe from all marketing emails."
  +:+ " The URL to unsubscribe: ".

Section Orchestrator.
(** The browsing agent: [agent_chain.run(prompt)] in a state of the outside
    world gives a new state and either its answer or an exception. *)
Variable World : Type.
Variable agent_run : World -> string -> World * result string.
Variable BeautifulSoup : string -> result node.

(** A computation of [main]: from a world to a new world, the events in
    order, and a value or an exception. *)
Definition io (A : Type) : Type := World -> World * list event * result A.

Definition io_ret {A} (a : A) : io A := fun w => (w, [], Ok a).

Definition io_bind {A B} (m : io A) (k : A -> io B) : io B := fun w =>
  match m w with
  | (w1, evs1, Ok a) =>
      match k a w1 with
      | (w2, evs2, r) => (w2, evs1 ++ evs2, r)
      end
  | (w1, evs1, Raise e) => (w1, evs1, Raise e)
  end.

Definition emit (ev : event) : io unit := fun w => (w, [ev], Ok tt).

Definition lift {A} (r : result A) : io A := fun w => (w, [], r).

(** [try: body  except Exception as e: handler(e)]. An exception that is no
    instance of [Exception] is not caught. *)
Definition try_except {A} (body : io A) (handler : exn -> io A) : io A :=
  fun w =>
  match body w with
  | (w1, evs1, Ok a) => (w1, evs1, Ok a)
  | (w1, evs1, Raise e) =>
      if is_exception e then
        match handler e w1 with
        | (w2, evs2, r) => (w2, evs1 ++ evs2, r)
        end
      else (w1, evs1, Raise e)
  end.

Notation "x <- m ;; k" := (io_bind m (fun x => k))
  (at level 100, m at next level, right associativity).
Notation "m ;; k" := (io_bind m (fun _ => k))
  (at level 100, right associativity).

Definition unsubscribe_from_email (url : string) : io unit :=
  emit (CallUnsubscribe url) ;;
  result <- (fun w => let '(w', r) := agent_run w (agent_prompt +:+ url) in
                      (w', [], r)) ;;
  emit (Print result).

(** The body of the loop of [main]. *)
Definition handle_email (email_msg : Email) : io unit :=
  emit (CallAnalyze email_msg) ;;
  let result := analyze_email email_msg in
  is_unwanted <- lift (dict_getitem result "is_unwanted") ;;
  if is_unwanted : bool then
    emit (CallGetUrl email_msg) ;;
    url <- lift (get_unsubscribe_url BeautifulSoup email_msg) ;;
    match url with
    | Some url =>
        try_except (unsubscribe_from_email url)
                   (fun e => emit (PrintError e))
    | None => io_ret tt
    end
  else io_ret tt.

Fixpoint main_loop (emails : list Email) : io unit :=
  match emails with
  | [] => io_ret tt
  | email_msg :: rest => handle_email email_msg ;; main_loop rest
  end.

Variable bytes_decode : string -> list byte -> result string.
Variable decode_words : string -> result (list (segment * option string)).
Variable search_all : result (list string).
Variable fetch : string -> result Fetched.

Definition main : io unit :=
  emails <- lift (connect_to_email bytes_decode decode_words search_all fetch) ;;
  main_loop emails.
End Orchestrator.

End App.
Export App.

(** ** Reference instances of the libraries

    Small executable fragments of the libraries the program calls, exact on
    the inputs they accept, for running the program on concrete messages. *)

Module Reference.

(** *** Codecs: [ascii], [latin-1] and [utf-8] *)

Definition ascii_decode (b : list byte) : result string :=
  if forallb (fun x => (Byte.to_N x <? 128)%N) b
  then Ok (string_of_list_byte b)
  else Raise UnicodeDecodeError.

Definition latin_1_decode (b : list byte) : result string :=
  Ok (string_of_list_byte b).

(** UTF-8 with results below U+0100: one-byte sequences and the two-byte
    sequences led by 0xC2 and 0xC3. A lead byte that cannot start a sequence
    is a decoding error; a lead byte 0xC4..0xF4 announces a code point the
    model of [str] does not hold, which is reported apart. *)
Fixpoint utf_8_decode (b : list byte) : result string :=
  match b with
  | [] => Ok ""
  | x :: rest =>
      let n := Byte.to_N x in
      if (n <? 128)%N then
        s ← utf_8_decode rest; mret (String (ascii_of_byte x) s)
      else if ((n =? 194) || (n =? 195))%N then
        match rest with
        | y :: rest' =>
            let m := Byte.to_N y in
            if ((128 <=? m) && (m <? 192))%N then
              s ← utf_8_decode rest';
              mret (String (ascii_of_N ((n - 192) * 64 + (m - 128))) s)
            else Raise UnicodeDecodeError
        | [] => Raise UnicodeDecodeError
        end
      else if ((n <? 194) || (244 <? n))%N then Raise UnicodeDecodeError
      else Raise (OtherException "CodePointOutsideModel")
  end.

(** A codec registry that holds these three codecs, under the names
    [get_content_charset] (which lower-cases) can give them. *)
Definition codecs_decode (encoding : string) (b : list byte) : result string :=
  if bool_decide (encoding ∈ ["ascii"; "us-ascii"]) then ascii_decode b
  else if bool_decide (encoding ∈ ["latin-1"; "iso-8859-1"]) then latin_1_decode b
  else if bool_decide (encoding ∈ ["utf-8"; "utf8"]) then utf_8_decode b
  else Raise LookupError.

(** [s.encode("latin-1")], to write payloads as text. *)
Definition bytes_of (s : string) : list byte := list_byte_of_string s.

(** *** Headers: no encoded words *)

(** [decode_header] is modelled in full on headers without an encoded word;
    this instance leaves the headers with one undecoded. *)
Definition no_encoded_words (header : string)
  : result (list (segment * option string)) :=
  Raise (OtherException "EncodedWordOutsideModel").

(** *** HTML: well-nested tags with double-quoted attributes

    The fragment: text without [<] and [&] that is not all white space;
    start tags [<name key="value" ...>] and end tags [</name>] over the
    names below, one space before each attribute, values without double
    quote, [&], [<] and [>]; every tag closed, in nesting order. On it the
    tree is the one [html.parser] builds: one string node per run of text,
    one tag per start tag, a repeated attribute keeping its last value. *)

Inductive token : Type :=
| StartTag (name : string) (attrs : gmap string string)
| EndTag (name : string)
| Data (s : string).

Fixpoint span (p : ascii -> bool) (s : string) : string * string :=
  match s with
  | EmptyString => ("", "")
  | String c s' =>
      if p c then let '(a, b) := span p s' in (String c a, b) else ("", s)
  end.

Definition double_quote : ascii := ascii_of_nat 34.

Definition is_lower_letter (c : ascii) : bool :=
  let n := N_of_ascii c in ((97 <=? n) && (n <=? 122))%N.

Definition is_space (c : ascii) : bool :=
  bool_decide (N_of_ascii c ∈ [32; 9; 10; 12; 13]%N).

Definition is_data_char (c : ascii) : bool :=
  negb (Ascii.eqb c "<") && negb (Ascii.eqb c "&").

Definition is_value_char (c : ascii) : bool :=
  negb (Ascii.eqb c double_quote) && negb (Ascii.eqb c "&") &&
  negb (Ascii.eqb c "<") && negb (Ascii.eqb c ">").

Fixpoint all_chars (p : ascii -> bool) (s : string) : bool :=
  match s with
  | EmptyString => true
  | String c s' => p c && all_chars p s'
  end.

Definition tag_names : list string :=
  ["a"; "b"; "i"; "p"; "div"; "span"; "em"; "strong"].

Definition attr_names : list string :=
  ["href"; "id"; "title"; "target"; "name"].

(** The attributes of a start tag, up to and with its [>]. *)
Fixpoint parse_attrs (fuel : nat) (s : string) (attrs : gmap string string)
  : option (gmap string string * string) :=
  match fuel with
  | 0 => None
  | S fuel' =>
      match s with
      | String ">" rest => Some (attrs, rest)
      | String " " rest =>
          let '(key, r1) := span is_lower_letter rest in
          if bool_decide (key ∈ attr_names) then
            match r1 with
            | String "=" (String q r2) =>
                let '(value, r3) := span is_value_char r2 in
                match r3 with
                | String q' r4 =>
                    if Ascii.eqb q double_quote && Ascii.eqb q' double_quote
                    then parse_attrs fuel' r4 (<[key := value]> attrs)
                    else None
                | EmptyString => None
                end
            | _ => None
            end
          else None
      | _ => None
      end
  end.

Fixpoint tokenize (fuel : nat) (s : string) : option (list token) :=
  match fuel with
  | 0 => None
  | S fuel' =>
      match s with
      | EmptyString => Some []
      | String "<" (String "/" rest) =>
          let '(name, r1) := span is_lower_letter rest in
          if bool_decide (name ∈ tag_names) then
            match r1 with
            | String ">" r2 => ts ← tokenize fuel' r2; Some (EndTag name :: ts)
            | _ => None
            end
          else None
      | String "<" rest =>
          let '(name, r1) := span is_lower_letter rest in
          if bool_decide (name ∈ tag_names) then
            '(attrs, r2) ← parse_attrs fuel' r1 ∅;
            ts ← tokenize fuel' r2;
            Some (StartTag name attrs :: ts)
          else None
      | _ =>
          let '(d, r) := span is_data_char s in
          if negb (all_chars is_space d) then
            ts ← tokenize fuel' r; Some (Data d :: ts)
          else None
      end
  end.

(** The elements up to the end tag that closes the enclosing tag, and the
    tokens from that end tag on. *)
Fixpoint build (fuel : nat) (ts : list token) : option (list node * list token) :=
  match fuel with
  | 0 => None
  | S fuel' =>
      match ts with
      | [] => Some ([], [])
      | EndTag _ :: _ => Some ([], ts)
      | Data d :: ts' =>
          '(ns, r) ← build fuel' ts'; Some (NavigableString d :: ns, r)
      | StartTag name attrs :: ts' =>
          '(contents, r) ← build fuel' ts';
          match r with
          | EndTag name' :: r' =>
              if String.eqb name name' then
                '(ns, r'') ← build fuel' r'; Some (Tag name attrs contents :: ns, r'')
              else None
          | _ => None
          end
      end
  end.

Definition parse_fragment (markup : string) : option node :=
  ts ← tokenize (S (String.length markup)) markup;
  '(ns, r) ← build (S (length ts)) ts;
  match r with
  | [] => Some (document ns)
  | _ :: _ => None
  end.

(** The tree of markup of the fragment (the empty document outside it). *)
Definition tree_of (markup : string) : node :=
  default (document []) (parse_fragment markup).

(** The parser on the fragment; markup outside it is not modelled, which is
    reported apart. *)
Definition html_parser (markup : string) : result node :=
  match parse_fragment markup with
  | Some soup => Ok soup
  | None => Raise (OtherException "MarkupOutsideModel")
  end.

(** Markup is written with ['] for the double quote. *)
Fixpoint dq (s : string) : string :=
  match s with
  | EmptyString => EmptyString
  | String c s' => String (if Ascii.eqb c "'" then double_quote else c) (dq s')
  end.

(** *** The agent and the mail session *)

(** A scripted agent: the world is the list of the outcomes still to come,
    one per call. *)
Definition scripted_agent (w : list (result string)) (prompt : string)
  : list (result string) * result string :=
  match w with
  | r :: w' => (w', r)
  | [] => ([], Ok "")
  end.

(** A mailbox: its ids in order, and the message of each. *)
Definition mailbox_fetch (box : gmap string Fetched) (e_id : string)
  : result Fetched :=
  match box !! e_id with
  | Some msg => Ok msg
  | None => Raise (OtherException "imaplib.IMAP4.error")
  end.

End Reference.

(** ** The properties, in the words of the specification *)

Module Spec.

(** [hay] contains [needle] when case is ignored: some substring of [hay]
    lower-cases to the lower case of [needle]. *)
Definition contains_ignoring_case (needle hay : string) : Prop :=
  exists pre mid post,
    hay = pre +:+ mid +:+ post /\ lower mid = lower needle.

(** [hay] contains [needle] as a substring. *)
Definition contains (needle hay : string) : Prop :=
  exists pre post, hay = pre +:+ needle +:+ post.

(** The link target of an anchor, when it has one. *)
Definition href_of (a : node) : option string :=
  match a with
  | Tag _ attrs _ => attrs !! "href"
  | NavigableString _ | Comment _ => None
  end.

(** The visible text of the anchor, lower-cased, contains "unsubscribe". *)
Definition has_unsubscribe_text (a : node) : bool :=
  str_in "unsubscribe" (lower (text a)).

(** A qualifying anchor: the text above, and a link target that contains
    "http". *)
Definition qualifies (a : node) : bool :=
  has_unsubscribe_text a &&
  match href_of a with
  | Some href => str_in "http" href
  | None => false
  end.

(** The link target an anchor offers: its own when it qualifies. *)
Definition candidate (a : node) : option string :=
  if qualifies a then href_of a else None.

(** The link targets of the qualifying anchors, in document order. *)
Definition candidate_links (soup : node) : list string :=
  omap candidate (find_all "a" soup).

(** An anchor with the text and with no link target at all. *)
Definition lacks_href (a : node) : bool :=
  has_unsubscribe_text a &&
  match href_of a with
  | Some _ => false
  | None => true
  end.

Definition is_Some_b {A} (x : option A) : bool :=
  match x with Some _ => true | None => false end.

(** Some anchor of the document is one. *)
Definition some_anchor_lacks_href (soup : node) : bool :=
  existsb lacks_href (find_all "a" soup).

(** [part] occurs in the tree of [msg]. *)
Inductive part_of (part : Message) : Message -> Prop :=
| part_of_self : part_of part part
| part_of_child ps p :
    p ∈ ps -> part_of part p -> part_of part (Multipart ps).

(** The contributions of the parts of a message, depth first and in the
    original order of the parts: a leaf gives one contribution, the empty
    string for an attachment and else its decoded payload; a multipart node
    gives those of its parts (and, without parts, their empty join). *)
Fixpoint contributions (bytes_decode : string -> list byte -> result string)
  (msg : Message) : list (result string) :=
  match msg with
  | Leaf content_disposition payload charset =>
      [ if is_attachment content_disposition then Ok ""
        else bytes_decode (or_else charset "utf-8") payload ]
  | Multipart [] => [Ok ""]
  | Multipart ps => flat_map (contributions bytes_decode) ps
  end.

(** The same tree with the payload of every attachment emptied. *)
Fixpoint without_attachments (msg : Message) : Message :=
  match msg with
  | Leaf content_disposition payload charset =>
      if is_attachment content_disposition
      then Leaf content_disposition [] charset
      else msg
  | Multipart ps => Multipart (map without_attachments ps)
  end.

(** The events of a run that concern the dispatch. *)
Definition is_dispatch (ev : event) : bool :=
  match ev with
  | CallUnsubscribe _ => true
  | _ => false
  end.

Definition is_link_extraction (ev : event) : bool :=
  match ev with
  | CallGetUrl _ => true
  | _ => false
  end.

(** The parts of a run of [main]. *)
Definition world_of {W A} (run : W * list event * result A) : W := run.1.1.
Definition events_of {W A} (run : W * list event * result A) : list event :=
  run.1.2.
Definition outcome_of {W A} (run : W * list event * result A) : result A :=
  run.2.

End Spec.
Export Spec.

(** ** Concrete messages *)

Module Scenarios.
Import Reference.

Definition decoy_then_link : Email :=
  mkEmail "Weekly deals"
    (dq "<a href='http://x.com/decoy'>click</a><a href='http://x.com/unsubscribe-final'>Unsubscribe here</a>")
    "deals@x.com".

Definition three_links : Email :=
  mkEmail "Offers"
    (dq "<p>News</p><a href='http://a.example/1'>Unsubscribe</a><a href='http://a.example/2'>unsubscribe now</a><div><a href='http://a.example/3'>Click to <b>UNSUBSCRIBE</b></a></div>")
    "shop@a.example".

Definition relative_link : Email :=
  mkEmail "Digest"
    (dq "<a href='/relative/unsubscribe'>Unsubscribe</a>")
    "digest@b.example".

Definition anchor_without_href : Email :=
  mkEmail "Digest" "<p>To leave the list: <a>Unsubscribe</a></p>"
    "digest@b.example".

Definition link_then_anchor_without_href : Email :=
  mkEmail "Digest"
    (dq "<a href='http://x.com/unsubscribe'>Unsubscribe</a><a>unsubscribe</a>")
    "digest@b.example".

Definition personal_note : Email :=
  mkEmail "Lunch" "See you tomorrow at noon." "friend@c.example".

(** A multipart message whose second part is not valid in its declared
    charset. *)
Definition undecodable_part : Message :=
  Multipart [ Leaf None (bytes_of "Hello") (Some "us-ascii");
              Leaf None [Byte.xff] (Some "us-ascii") ].

Definition text_and_attachment : Message :=
  Multipart [ Leaf (Some "attachment; filename=report.pdf") [Byte.xff; Byte.xd8] None;
              Multipart [ Leaf None (bytes_of "plain text") (Some "us-ascii");
                          Leaf (Some "inline") [Byte.xc3; Byte.xa9] None ] ].

Definition html_message (markup : string) : Fetched :=
  mkFetched (Some (HeaderStr "Weekly deals")) (Some (HeaderStr "deals@x.com"))
    (Leaf None (bytes_of markup) (Some "us-ascii")).

(** A mailbox of three messages; the body of the second does not decode. *)
Definition three_messages : gmap string Fetched :=
  {[ "1" := html_message (content decoy_then_link);
     "2" := mkFetched (Some (HeaderStr "Hi"))
              (Some (HeaderStr "someone@d.example")) undecodable_part;
     "3" := html_message (content three_links) ]}.

End Scenarios.

(** ** The confirmation prompt *)

Module Interaction.

Definition tab : string := String (ascii_of_nat 9) "".

Definition confirmation_prompt : string :=
  "Do you want to unsubscribe from this email? (y/n): ".

Section InteractWithUser.
Variable World : Type.
(** [input(prompt)]: the line the user types, or an exception (the end of
    the input). *)
Variable input : World -> string -> World * result string.

Definition interact_with_user (email_msg : Email) : io World bool :=
  let subject := subject email_msg in
  let from_address := from_address email_msg in
  io_bind World
    (emit World
       (Print ("Subject: " +:+ subject +:+ tab +:+ "From: " +:+ from_address)))
    (fun _ =>
       io_bind World
         (fun w => let '(w', r) := input w confirmation_prompt in (w', [], r))
         (fun choice => io_ret World (String.eqb (lower choice) "y"))).
End InteractWithUser.

End Interaction.
Export Interaction.

(** ** What a run shows *)

Module Observations.

(** The links handed to the agent in a run, in order. *)
Definition dispatched (evs : list event) : list string :=
  omap (fun ev => match ev with
                  | CallUnsubscribe url => Some url
                  | _ => None
                  end) evs.

(** The messages classified in a run, in order. *)
Definition analyzed (evs : list event) : list Email :=
  omap (fun ev => match ev with
                  | CallAnalyze email_msg => Some email_msg
                  | _ => None
                  end) evs.

(** The link of a message that is classified unwanted and for which the
    extraction returns a link. *)
Definition link_to_dispatch (BeautifulSoup : string -> result node)
  (email_msg : Email) : option string :=
  if str_in "unsubscribe" (lower (content email_msg)) then
    match get_unsubscribe_url BeautifulSoup email_msg with
    | Ok (Some url) => Some url
    | _ => None
    end
  else None.

Definition is_answer (ev : event) : bool :=
  match ev with
  | Print _ | PrintError _ => true
  | _ => false
  end.

(** The leaves of a tree that are decoded, depth first: the encoding used
    and the payload. *)
Fixpoint decoded_leaves (msg : Message) : list (string * list byte) :=
  match msg with
  | Leaf content_disposition payload charset =>
      if is_attachment content_disposition then []
      else [(or_else charset "utf-8", payload)]
  | Multipart ps => flat_map decoded_leaves ps
  end.

(** The world after the agent was called with a link. *)
Definition after_dispatch {World : Type}
  (agent_run : World -> string -> World * result string)
  (w : World) (url : string) : World :=
  (agent_run w (agent_prompt +:+ url)).1.

(** Every call of the agent in the run is directly followed by a printed
    line. *)
Fixpoint answered (evs : list event) : bool :=
  match evs with
  | [] => true
  | CallUnsubscribe _ :: rest =>
      match rest with
      | ev :: _ => is_answer ev && answered rest
      | [] => false
      end
  | _ :: rest => answered rest
  end.

End Observations.
Export Observations.

(** ** More concrete inputs *)

Module Inputs.
Import Reference.

(** A mailbox with one readable message under the id "1" and an unreadable
    one under "old". *)
Definition one_message : gmap string Fetched :=
  {[ "1" := Scenarios.html_message (content Scenarios.decoy_then_link) ]}.

Definition one_message_and_old : gmap string Fetched :=
  {[ "1" := Scenarios.html_message (content Scenarios.decoy_then_link);
     "old" := mkFetched None None Scenarios.undecodable_part ]}.

Definition no_subject : Fetched :=
  mkFetched None (Some (HeaderStr "someone@d.example"))
    (Leaf None (bytes_of "Hello") (Some "us-ascii")).

(** A message whose Subject holds the raw 8-bit bytes of "Caf" and 0xE9. *)
Definition raw_subject : Fetched :=
  mkFetched (Some (Header8bit [Byte.x43; Byte.x61; Byte.x66; Byte.xe9]))
    (Some (HeaderStr "someone@d.example"))
    (Leaf None (bytes_of "Hello") (Some "us-ascii")).

(** A codec registry that lacks latin-1. *)
Definition codecs_without_latin_1 (encoding : string) (b : list byte)
  : result string :=
  if bool_decide (encoding ∈ ["latin-1"; "iso-8859-1"]) then Raise LookupError
  else codecs_decode encoding b.

Definition nested_parts : list Message :=
  [ Leaf None (bytes_of "two") (Some "us-ascii");
    Leaf (Some "attachment") [Byte.xff] None;
    Leaf None (bytes_of "three") None ].

(** Anchors without the unsubscribe text, one of them without href. *)
Definition anchors_without_text : Email :=
  mkEmail "Welcome"
    (dq "<a>Home</a><a href='http://x.com/shop'>Shop</a>")
    "shop@x.com".

(** An agent that fails with a time-out on every other call; its world
    counts the calls. *)
Definition timing_out_agent (w : nat) (prompt : string)
  : nat * result string :=
  (S w, if Nat.even w then Raise (OtherException "TimeoutError")
        else Ok "done").

(** A user who answers with the lines of a script, in order. *)
Definition scripted_input (w : list string) (prompt : string)
  : list string * result string :=
  match w with
  | line :: w' => (w', Ok line)
  | [] => ([], Raise (OtherException "EOFError"))
  end.

End Inputs.

(** ** Strings *)

#[local] Arguments String.append !_ _ : simpl nomatch.

Section StringFacts.

Lemma append_empty_r (s : string) : s +:+ "" = s.
Proof. induction s as [|c s IH]; simpl; [done | by f_equal]. Qed.

Lemma append_assoc (a b c : string) : (a +:+ b) +:+ c = a +:+ b +:+ c.
Proof. induction a as [|x a IH]; simpl; [done | by f_equal]. Qed.

Lemma prefix_iff (needle hay : string) :
  String.prefix needle hay = true <-> exists post, hay = needle +:+ post.
Proof.
  revert hay. induction needle as [|c needle IH]; intros hay.
  - destruct hay; simpl; split; eauto.
  - destruct hay as [|d hay]; simpl.
    + split; [done | intros [post H]; discriminate].
    + destruct (ascii_dec c d) as [->|Hne].
      * rewrite IH. split; intros [post H]; exists post; congruence.
      * split; [done | intros [post H]; congruence].
Qed.

Lemma str_in_nil (needle : string) :
  str_in needle "" = String.prefix needle "".
Proof. unfold str_in. apply orb_false_r. Qed.

Lemma str_in_cons (needle : string) (c : ascii) (hay : string) :
  str_in needle (String c hay) =
  String.prefix needle (String c hay) || str_in needle hay.
Proof. reflexivity. Qed.

Lemma str_in_iff (needle hay : string) :
  str_in needle hay = true <-> contains needle hay.
Proof.
  unfold contains. induction hay as [|c hay IH].
  - rewrite str_in_nil, prefix_iff. split.
    + intros [post H]. by exists "", post.
    + intros (pre & post & H). destruct pre; [by exists post | discriminate].
  - rewrite str_in_cons, orb_true_iff, prefix_iff, IH. split.
    + intros [[post H] | (pre & post & H)].
      * by exists "", post.
      * exists (String c pre), post. simpl. by rewrite H.
    + intros (pre & post & H). destruct pre as [|d pre]; simpl in H.
      * left. by exists post.
      * right. exists pre, post. congruence.
Qed.

Lemma lower_append (a b : string) : lower (a +:+ b) = lower a +:+ lower b.
Proof. induction a as [|c a IH]; simpl; [done | by f_equal]. Qed.

Lemma lower_split (s a b : string) :
  lower s = a +:+ b ->
  exists sa sb, s = sa +:+ sb /\ lower sa = a /\ lower sb = b.
Proof.
  revert s. induction a as [|c a IH]; intros s H; simpl in H.
  - by exists "", s.
  - destruct s as [|d s]; [discriminate |]. simpl in H.
    injection H as Hc Hs. destruct (IH _ Hs) as (sa & sb & -> & Ha & Hb).
    exists (String d sa), sb. simpl. by rewrite Hc, Ha.
Qed.

Lemma str_in_lower_iff (needle hay : string) :
  lower needle = needle ->
  str_in needle (lower hay) = true <-> contains_ignoring_case needle hay.
Proof.
  intros Hn. rewrite str_in_iff. unfold contains, contains_ignoring_case.
  split.
  - intros (pre & post & H).
    destruct (lower_split _ _ _ H) as (sa & s1 & -> & Ha & H1).
    destruct (lower_split _ _ _ H1) as (sb & sc & -> & Hb & Hc).
    exists sa, sb, sc. by rewrite Hn.
  - intros (pre & mid & post & -> & Hmid).
    exists (lower pre), (lower post).
    rewrite !lower_append. congruence.
Qed.

End StringFacts.

(** ** The classifier *)

(** C2. [analyze_email] returns [is_unwanted = True] exactly when the
    content of the message contains "unsubscribe", case ignored, and
    [is_unwanted = False] otherwise; the dictionary has no other key. *)
Theorem analyze_email_unsubscribe_rule (email_msg : Email) :
  (analyze_email email_msg = {[ "is_unwanted" := true ]} <->
     contains_ignoring_case "unsubscribe" (content email_msg)) /\
  (analyze_email email_msg = {[ "is_unwanted" := false ]} <->
     ~ contains_ignoring_case "unsubscribe" (content email_msg)) /\
  (dict_getitem (analyze_email email_msg) "is_unwanted" = Ok true <->
     contains_ignoring_case "unsubscribe" (content email_msg)).
Proof.
  pose proof (str_in_lower_iff "unsubscribe" (content email_msg) eq_refl) as H.
  unfold analyze_email, dict_getitem.
  destruct (str_in "unsubscribe" (lower (content email_msg))) eqn:E;
    rewrite lookup_singleton_eq.
  - assert (Hc : contains_ignoring_case "unsubscribe" (content email_msg))
      by (by apply H).
    split_and!; split; done.
  - assert (Hno : ~ contains_ignoring_case "unsubscribe" (content email_msg)).
    { intros Hc. apply H in Hc. discriminate. }
    split_and!; split; done.
Qed.

(** ** Calls that may raise *)

Section ResultFacts.
Context {A B : Type}.
Implicit Types (f : A -> result B) (l : list A) (k : list B).

Lemma mapM_nil f : mapM f [] = Ok [].
Proof. reflexivity. Qed.

Lemma mapM_cons f x l :
  mapM f (x :: l) = y ← f x; ys ← mapM f l; mret (y :: ys).
Proof. reflexivity. Qed.

Lemma mapM_Ok_iff f l k :
  mapM f l = Ok k <-> Forall2 (fun x y => f x = Ok y) l k.
Proof.
  revert k. induction l as [|x l IH]; intros k.
  - rewrite mapM_nil. split.
    + intros [= <-]. constructor.
    + by inversion 1.
  - rewrite mapM_cons. split.
    + destruct (f x) as [y|e] eqn:Ex; [|done].
      destruct (mapM f l) as [ys|e] eqn:El; [|done].
      intros [= <-]. constructor; [done | by apply IH].
    + inversion 1 as [|? y ? ys Hx Hl]; subst.
      rewrite Hx. apply IH in Hl. by rewrite Hl.
Qed.

Lemma mapM_length f l k : mapM f l = Ok k -> length k = length l.
Proof. intros H. apply mapM_Ok_iff in H. symmetry. by eapply Forall2_length. Qed.

(** The first element that raises ends the traversal with its exception. *)
Lemma mapM_first_raise f pre x post (ys : list B) e :
  mapM f pre = Ok ys -> f x = Raise e -> mapM f (pre ++ x :: post) = Raise e.
Proof.
  revert ys. induction pre as [|p pre IH]; intros ys Hpre Hx.
  - rewrite app_nil_l, mapM_cons, Hx. reflexivity.
  - rewrite <- app_comm_cons. rewrite mapM_cons in *.
    destruct (f p) as [y|e'] eqn:Ep; [|done].
    destruct (mapM f pre) as [ys'|e'] eqn:El; [|done].
    by rewrite (IH ys').
Qed.

Lemma mapM_raises f l x :
  x ∈ l -> returns (f x) = false -> returns (mapM f l) = false.
Proof.
  induction 1 as [x l | x y l Hin IH]; intros Hx; rewrite mapM_cons.
  - by destruct (f x).
  - destruct (f y); [|done]. specialize (IH Hx).
    by destruct (mapM f l).
Qed.

Lemma mapM_ext_Forall f g l :
  Forall (fun x => f x = g x) l -> mapM f l = mapM g l.
Proof.
  induction 1 as [|x l Hx _ IH]; [done |].
  by rewrite !mapM_cons, Hx, IH.
Qed.

End ResultFacts.

Lemma mapM_map {A B C} (g : A -> B) (f : B -> result C) (l : list A) :
  mapM f (map g l) = mapM (fun x => f (g x)) l.
Proof.
  induction l as [|x l IH]; [done |].
  rewrite map_cons. by rewrite !mapM_cons, IH.
Qed.

Lemma mapM_id_app {A} (l1 l2 : list (result A)) :
  mapM id (l1 ++ l2) = a ← mapM id l1; b ← mapM id l2; mret (a ++ b).
Proof.
  induction l1 as [|r l1 IH].
  - rewrite app_nil_l, mapM_nil. destruct (mapM id l2); reflexivity.
  - rewrite <- app_comm_cons. rewrite !mapM_cons, IH.
    destruct r; [|reflexivity].
    destruct (mapM id l1); [|reflexivity]. destruct (mapM id l2); reflexivity.
Qed.

(** ** Joining *)

Section JoinFacts.
Variable sep : string.

Lemma join_cons (p q : string) (rest : list string) :
  join sep (p :: q :: rest) = p +:+ sep +:+ join sep (q :: rest).
Proof. reflexivity. Qed.

Lemma join_app (l1 l2 : list string) :
  l1 ≠ [] -> l2 ≠ [] ->
  join sep (l1 ++ l2) = join sep l1 +:+ sep +:+ join sep l2.
Proof.
  intros H1 H2. induction l1 as [|p l1 IH]; [done |].
  destruct l1 as [|q l1].
  - destruct l2 as [|r l2]; [done |]. reflexivity.
  - change ((p :: q :: l1) ++ l2) with (p :: q :: (l1 ++ l2)).
    rewrite !join_cons.
    change (q :: l1 ++ l2) with ((q :: l1) ++ l2).
    rewrite IH by done. by rewrite !append_assoc.
Qed.

(** Joining the joins of non-empty groups is joining all their elements. *)
Lemma join_concat (groups : list (list string)) :
  Forall (fun g => g ≠ []) groups ->
  join sep (map (join sep) groups) = join sep (concat groups).
Proof.
  induction 1 as [|g groups Hg Hgs IH]; [done |].
  destruct groups as [|g' groups].
  - simpl. by rewrite app_nil_r.
  - change (map (join sep) (g :: g' :: groups))
      with (join sep g :: join sep g' :: map (join sep) groups).
    rewrite join_cons.
    change (join sep g' :: map (join sep) groups)
      with (map (join sep) (g' :: groups)).
    rewrite IH.
    change (concat (g :: g' :: groups)) with (g ++ concat (g' :: groups)).
    rewrite join_app; [done | done |].
    inversion Hgs as [|? ? Hg' _]; subst. simpl.
    destruct g'; [done | discriminate].
Qed.

End JoinFacts.

(** ** The content extractor *)

(** Induction on a message tree, with the hypothesis on every part of a
    multipart node. *)
Lemma Message_tree_ind (P : Message -> Prop) :
  (forall cd payload cs, P (Leaf cd payload cs)) ->
  (forall ps, Forall P ps -> P (Multipart ps)) ->
  forall msg, P msg.
Proof.
  intros Hleaf Hmulti. fix IH 1. intros [cd payload cs | ps].
  - apply Hleaf.
  - apply Hmulti. induction ps as [|p ps IHps]; constructor.
    + apply IH.
    + apply IHps.
Qed.

Section GetContentFacts.
Variable bytes_decode : string -> list byte -> result string.

Abbreviation get_content := (get_content bytes_decode).
Abbreviation decode_leaf := (decode_leaf bytes_decode).
Abbreviation contributions := (contributions bytes_decode).

Lemma get_content_leaf cd payload cs :
  get_content (Leaf cd payload cs) =
  if is_attachment cd then Ok "" else decode_leaf payload cs.
Proof. simpl. by destruct (is_attachment cd). Qed.

Lemma get_content_multipart ps :
  get_content (Multipart ps) =
  parts ← mapM get_content ps; mret (join newline parts).
Proof. reflexivity. Qed.

(** The charset is the declared one, and "utf-8" when none is declared. *)
Lemma decode_leaf_charset payload cs :
  decode_leaf payload cs = bytes_decode (or_else cs "utf-8") payload.
Proof. unfold Mime.decode_leaf, or_else. by destruct (truthy cs). Qed.

Lemma contributions_nonempty msg : contributions msg ≠ [].
Proof.
  induction msg as [cd payload cs | ps IH] using Message_tree_ind; [done |].
  destruct ps as [|p ps]; [done |].
  inversion IH as [|? ? Hp _]; subst.
  change (contributions (Multipart (p :: ps)))
    with (contributions p ++ flat_map contributions ps).
  destruct (contributions p); [done | discriminate].
Qed.

(** The contributions of the parts of a list, group by group: they are
    those of the parts, flattened. *)
Lemma contributions_groups ps :
  mapM id (flat_map contributions ps) =
  groups ← mapM (fun p => mapM id (contributions p)) ps; mret (concat groups).
Proof.
  induction ps as [|p ps IH]; [done |].
  change (flat_map contributions (p :: ps))
    with (contributions p ++ flat_map contributions ps).
  rewrite mapM_id_app, IH, mapM_cons.
  destruct (mapM id (contributions p)); [|reflexivity].
  destruct (mapM _ ps); reflexivity.
Qed.

Lemma get_content_contributions msg :
  get_content msg =
  texts ← mapM id (contributions msg); mret (join newline texts).
Proof.
  induction msg as [cd payload cs | ps IH] using Message_tree_ind.
  - rewrite get_content_leaf, decode_leaf_charset.
    change (contributions (Leaf cd payload cs))
      with [if is_attachment cd then Ok ""
            else bytes_decode (or_else cs "utf-8") payload].
    rewrite mapM_cons, mapM_nil. unfold id.
    destruct (is_attachment cd); [reflexivity |].
    destruct (bytes_decode _ payload); reflexivity.
  - destruct ps as [|p ps]; [reflexivity |].
    rewrite get_content_multipart.
    change (contributions (Multipart (p :: ps)))
      with (flat_map contributions (p :: ps)).
    rewrite contributions_groups.
    rewrite (mapM_ext_Forall _ _ _ IH).
    set (group := fun p => mapM id (contributions p)).
    assert (Hgroups : forall l,
      mapM (fun x => texts ← group x; mret (join newline texts)) l =
      groups ← mapM group l; mret (map (join newline) groups)).
    { induction l as [|x l IHl]; [reflexivity |].
      rewrite !mapM_cons, IHl. destruct (group x); [|reflexivity].
      destruct (mapM group l); reflexivity. }
    rewrite Hgroups.
    destruct (mapM group (p :: ps)) as [groups|e] eqn:E; [|reflexivity].
    cbn. f_equal. apply join_concat.
    apply mapM_Ok_iff in E. clear -E.
    induction E as [|q g qs gs Hq _ IHE]; constructor; [|done].
    intros ->. apply mapM_length in Hq.
    destruct (contributions q) eqn:Eq; [|discriminate].
    by destruct (contributions_nonempty q).
Qed.

Lemma get_content_without_attachments msg :
  get_content (without_attachments msg) = get_content msg.
Proof.
  induction msg as [cd payload cs | ps IH] using Message_tree_ind.
  - change (without_attachments (Leaf cd payload cs))
      with (if is_attachment cd then Leaf cd [] cs else Leaf cd payload cs).
    destruct (is_attachment cd) eqn:E; [|done].
    by rewrite !get_content_leaf, E.
  - change (without_attachments (Multipart ps))
      with (Multipart (map without_attachments ps)).
    rewrite !get_content_multipart, mapM_map.
    by rewrite (mapM_ext_Forall _ _ _ IH).
Qed.

(** A part that raises makes the whole tree raise. *)
Lemma get_content_part_raises part msg :
  part_of part msg ->
  returns (get_content part) = false -> returns (get_content msg) = false.
Proof.
  induction 1 as [| ps p Hin _ IH]; [done |]. intros Hpart.
  rewrite get_content_multipart.
  pose proof (mapM_raises get_content ps p Hin (IH Hpart)) as Hps.
  by destruct (mapM _ ps).
Qed.

End GetContentFacts.

(** C5. [get_content] gives the empty string for an attachment leaf, the
    payload decoded with the declared charset (utf-8 when none is declared)
    for any other leaf, and for a multipart node the contributions of its
    parts joined by newlines in their order. Hence the payload of an
    attachment never shows in the result, and the result is the join of the
    contributions of the parts taken depth first. *)
Theorem get_content_flattens
  (bytes_decode : string -> list byte -> result string) :
  (forall cd payload cs,
     get_content bytes_decode (Leaf cd payload cs) =
     if is_attachment cd then Ok ""
     else bytes_decode (or_else cs "utf-8") payload) /\
  (forall ps texts,
     Forall2 (fun p t => get_content bytes_decode p = Ok t) ps texts ->
     get_content bytes_decode (Multipart ps) = Ok (join newline texts)) /\
  (forall msg,
     get_content bytes_decode msg =
     get_content bytes_decode (without_attachments msg)) /\
  (forall msg,
     get_content bytes_decode msg =
     texts ← mapM id (contributions bytes_decode msg);
     mret (join newline texts)).
Proof.
  split_and!.
  - intros. by rewrite get_content_leaf, decode_leaf_charset.
  - intros ps texts H. apply mapM_Ok_iff in H.
    by rewrite get_content_multipart, H.
  - intros. by rewrite get_content_without_attachments.
  - apply get_content_contributions.
Qed.

Lemma get_content_flattens_witness :
  get_content Reference.codecs_decode Scenarios.text_and_attachment =
  Ok (join newline
        [""; "plain text" +:+ newline +:+ String (ascii_of_nat 233) ""]).
Proof.
  destruct (get_content_flattens Reference.codecs_decode) as (_ & Hmulti & _).
  apply Hmulti. repeat constructor; vm_compute; reflexivity.
Defined.

(** C10. A leaf without a Content-Disposition header is no attachment: it
    contributes its decoded payload. The test is the substring test for
    "attachment" on the string form of the header value, which for an absent
    header is "None". *)
Theorem get_content_no_disposition
  (bytes_decode : string -> list byte -> result string)
  (payload : list byte) (cs : option string) :
  str_of None = "None" /\
  is_attachment None = false /\
  (forall cd, is_attachment cd = true <-> contains "attachment" (str_of cd)) /\
  get_content bytes_decode (Leaf None payload cs) =
    bytes_decode (or_else cs "utf-8") payload.
Proof.
  split_and!; [done | done | |].
  - intros cd. apply str_in_iff.
  - by rewrite get_content_leaf, decode_leaf_charset.
Qed.

(** ** The link extractor *)

Section LinkFacts.
Variable BeautifulSoup : string -> result node.

Lemma find_all_tags name soup :
  Forall (fun a => is_tag_named name a = true) (find_all name soup).
Proof.
  unfold find_all. apply Forall_forall. intros a Ha.
  apply list_elem_of_In in Ha. by apply filter_In in Ha as [_ Ha].
Qed.

Lemma tag_getitem_href name a :
  is_tag_named name a = true ->
  tag_getitem a "href" =
  match href_of a with
  | Some href => Ok href
  | None => Raise (KeyError "href")
  end.
Proof. by destruct a. Qed.

Lemma collect_links_cons a_tag rest unsubscribe_links :
  collect_links (a_tag :: rest) unsubscribe_links =
  if has_unsubscribe_text a_tag then
    href ← tag_getitem a_tag "href";
    if str_in "http" href
    then collect_links rest (unsubscribe_links ++ [href])
    else collect_links rest unsubscribe_links
  else collect_links rest unsubscribe_links.
Proof. reflexivity. Qed.

(** The loop, anchor by anchor: it raises at the first anchor that has the
    text and no link target, and else appends the candidates. *)
Lemma collect_links_spec a_tags unsubscribe_links :
  Forall (fun a => is_tag_named "a" a = true) a_tags ->
  collect_links a_tags unsubscribe_links =
  if existsb lacks_href a_tags then Raise (KeyError "href")
  else Ok (unsubscribe_links ++ omap candidate a_tags).
Proof.
  intros Htags. revert unsubscribe_links.
  induction Htags as [|a rest Ha _ IH]; intros acc.
  - simpl. by rewrite app_nil_r.
  - rewrite collect_links_cons, (tag_getitem_href _ _ Ha).
    change (existsb lacks_href (a :: rest))
      with (lacks_href a || existsb lacks_href rest).
    change (omap candidate (a :: rest))
      with (match candidate a with
            | Some y => y :: omap candidate rest
            | None => omap candidate rest
            end).
    assert (Hl : lacks_href a =
                 has_unsubscribe_text a && negb (is_Some_b (href_of a))).
    { unfold lacks_href. by destruct (href_of a). }
    assert (Hc : candidate a =
                 if has_unsubscribe_text a
                 then match href_of a with
                      | Some href => if str_in "http" href then Some href else None
                      | None => None
                      end
                 else None).
    { unfold candidate, qualifies.
      by destruct (has_unsubscribe_text a), (href_of a) as [href|]. }
    rewrite Hl, Hc. clear Hl Hc.
    destruct (has_unsubscribe_text a); [|apply IH].
    destruct (href_of a) as [href|]; [|reflexivity].
    cbn. destruct (str_in "http" href); rewrite IH; [|done].
    destruct (existsb lacks_href rest); [done |].
    by rewrite <- app_assoc.
Qed.

Lemma get_unsubscribe_url_parsed email_content soup :
  BeautifulSoup (content email_content) = Ok soup ->
  get_unsubscribe_url BeautifulSoup email_content =
  if some_anchor_lacks_href soup then Raise (KeyError "href")
  else Ok (last (candidate_links soup)).
Proof.
  intros Hsoup.
  unfold get_unsubscribe_url, some_anchor_lacks_href, candidate_links.
  rewrite Hsoup. cbn [mbind result_bind].
  rewrite collect_links_spec by apply find_all_tags.
  destruct (existsb lacks_href _); [reflexivity |].
  rewrite app_nil_l. cbn.
  destruct (omap _ _) as [|h l]; [reflexivity |].
  by rewrite bool_decide_true by (simpl; lia).
Qed.

Lemma get_unsubscribe_url_rejected email_content e :
  BeautifulSoup (content email_content) = Raise e ->
  get_unsubscribe_url BeautifulSoup email_content = Raise e.
Proof. intros H. unfold get_unsubscribe_url. by rewrite H. Qed.

Lemma some_anchor_lacks_href_iff soup :
  some_anchor_lacks_href soup = true <->
  exists a, a ∈ find_all "a" soup /\
            has_unsubscribe_text a = true /\ href_of a = None.
Proof.
  unfold some_anchor_lacks_href. rewrite existsb_exists. unfold lacks_href.
  split; intros (a & Hin & H).
  - exists a. apply list_elem_of_In in Hin. apply andb_true_iff in H as [Ht Hh].
    by destruct (href_of a).
  - exists a. destruct H as [-> ->]. by apply list_elem_of_In in Hin.
Qed.

Lemma candidate_links_iff soup href :
  href ∈ candidate_links soup <->
  exists a, a ∈ find_all "a" soup /\ qualifies a = true /\
            href_of a = Some href.
Proof.
  unfold candidate_links. rewrite list_elem_of_omap.
  split; intros (a & Hin & H); exists a; split; try done.
  - unfold candidate in H. by destruct (qualifies a).
  - unfold candidate. by destruct H as [-> ->].
Qed.

End LinkFacts.

(** The trees of the concrete messages used below. *)
Example anchor_without_href_tree :
  Reference.parse_fragment (content Scenarios.anchor_without_href) =
  Some (document
          [Tag "p" ∅ [NavigableString "To leave the list: ";
                      Tag "a" ∅ [NavigableString "Unsubscribe"]]]).
Proof. vm_compute; reflexivity. Qed.

Example link_then_anchor_without_href_tree :
  Reference.parse_fragment
    (content Scenarios.link_then_anchor_without_href) =
  Some (document
          [Tag "a" {[ "href" := "http://x.com/unsubscribe" ]}
               [NavigableString "Unsubscribe"];
           Tag "a" ∅ [NavigableString "unsubscribe"]]).
Proof. vm_compute; reflexivity. Qed.

Example decoy_then_link_url :
  Reference.parse_fragment (content Scenarios.decoy_then_link) =
  Some (document
          [Tag "a" {[ "href" := "http://x.com/decoy" ]}
               [NavigableString "click"];
           Tag "a" {[ "href" := "http://x.com/unsubscribe-final" ]}
               [NavigableString "Unsubscribe here"]]) /\
  get_unsubscribe_url Reference.html_parser Scenarios.decoy_then_link =
  Ok (Some "http://x.com/unsubscribe-final").
Proof. split; vm_compute; reflexivity. Qed.




(** C6, as amended. When the parser returns a document, no anchor of it
    qualifies and no anchor has the unsubscribe text without having a link
    target, [get_unsubscribe_url] returns [None] and does not raise,
    whatever the content was (no HTML at all, or only a relative link).
    When the parser rejects the markup, its exception leaves the call. *)
Theorem get_unsubscribe_url_no_candidate
  (BeautifulSoup : string -> result node) (email_content : Email) :
  (forall soup,
     BeautifulSoup (content email_content) = Ok soup ->
     candidate_links soup = [] ->
     some_anchor_lacks_href soup = false ->
     get_unsubscribe_url BeautifulSoup email_content = Ok None) /\
  (forall e,
     BeautifulSoup (content email_content) = Raise e ->
     get_unsubscribe_url BeautifulSoup email_content = Raise e).
Proof.
  split.
  - intros soup Hsoup Hnone Hno.
    by rewrite (get_unsubscribe_url_parsed _ _ _ Hsoup), Hno, Hnone.
  - apply get_unsubscribe_url_rejected.
Qed.

Lemma get_unsubscribe_url_no_candidate_witness :
  get_unsubscribe_url Reference.html_parser Scenarios.relative_link = Ok None /\
  get_unsubscribe_url Reference.html_parser Scenarios.personal_note = Ok None /\
  get_unsubscribe_url
    (fun _ => Raise (OtherException "ParserRejectedMarkup"))
    Scenarios.personal_note = Raise (OtherException "ParserRejectedMarkup").
Proof.
  split_and!.
  - destruct (get_unsubscribe_url_no_candidate Reference.html_parser
                Scenarios.relative_link) as [Hnone _].
    apply (Hnone (Reference.tree_of (content Scenarios.relative_link)));
      vm_compute; reflexivity.
  - destruct (get_unsubscribe_url_no_candidate Reference.html_parser
                Scenarios.personal_note) as [Hnone _].
    apply (Hnone (Reference.tree_of (content Scenarios.personal_note)));
      vm_compute; reflexivity.
  - destruct (get_unsubscribe_url_no_candidate
                (fun _ => Raise (OtherException "ParserRejectedMarkup"))
                Scenarios.personal_note) as [_ Hrej].
    apply Hrej. reflexivity.
Defined.

(** C6 as stated fails: the only anchor has the text and no href, so no
    anchor qualifies, and the call raises. *)
Lemma get_unsubscribe_url_no_candidate_counterexample :
  Reference.html_parser (content Scenarios.anchor_without_href) =
    Ok (Reference.tree_of (content Scenarios.anchor_without_href)) /\
  candidate_links
    (Reference.tree_of (content Scenarios.anchor_without_href)) = [] /\
  get_unsubscribe_url Reference.html_parser Scenarios.anchor_without_href =
    Raise (KeyError "href").
Proof. split_and!; vm_compute; reflexivity. Qed.

(** ** The header decoder *)

Section DecodeFieldFacts.
Variable bytes_decode : string -> list byte -> result string.
Variable decode_words : string -> result (list (segment * option string)).

Abbreviation decode_header := (decode_header decode_words).
Abbreviation decode_segment := (decode_segment bytes_decode).
Abbreviation decode_field := (decode_field bytes_decode decode_words).

(** An encoded word starts with "=?". *)
Lemma encoded_word_at_marker s :
  encoded_word_at s = true -> String.prefix "=?" s = true.
Proof.
  destruct s as [|c [|d s]]; try done.
  - by destruct c as [[] [] [] [] [] [] [] []].
  - unfold encoded_word_at.
    destruct (ascii_dec c "=") as [->|Hc];
      [|by destruct c as [[] [] [] [] [] [] [] []]].
    destruct (ascii_dec d "?") as [->|Hd];
      [intros _; apply prefix_iff; by exists s
      | by destruct d as [[] [] [] [] [] [] [] []]].
Qed.

Lemma ecre_search_marker s : ecre_search s = true -> str_in "=?" s = true.
Proof.
  induction s as [|c s IH].
  - by cbn.
  - change (ecre_search (String c s))
      with (encoded_word_at (String c s) || ecre_search s).
    rewrite str_in_cons, !orb_true_iff.
    intros [H|H]; [left; by apply encoded_word_at_marker | right; by apply IH].
Qed.

Lemma decode_header_plain field :
  ecre_search field = false -> decode_header field = Ok [(SegStr field, None)].
Proof. intros H. unfold Header.decode_header. by rewrite H. Qed.

Lemma decode_field_segments field segs :
  decode_header field = Ok segs ->
  decode_field field =
  field_parts ← mapM decode_segment segs; mret (join "" field_parts).
Proof. intros H. unfold Header.decode_field. by rewrite H. Qed.

Lemma decode_field_plain field :
  ecre_search field = false -> decode_field field = Ok field.
Proof.
  intros H. by rewrite (decode_field_segments _ _ (decode_header_plain _ H)).
Qed.

End DecodeFieldFacts.

Example ecre_search_examples :
  ecre_search "=?utf-8?q?Caf=C3=A9?= menu" = true /\
  ecre_search "Re: =?ISO-8859-1?B?SGVsbG8=?=" = true /\
  ecre_search "Weekly deals" = false /\
  ecre_search "what =? why ?= so" = false /\
  ecre_search "=?utf-8?x?abc?=" = false.
Proof. repeat split; vm_compute; reflexivity. Qed.

(** C7. [decode_field] takes the segments [decode_header] splits the field
    into, decodes each [bytes] segment with its declared charset, and with
    utf-8 when none is declared, keeps each [str] segment, and concatenates
    the results in the order of the segments, one per segment; a segment
    that does not decode makes the call raise. A field that holds no encoded
    word, and so any field without the marker "=?", decodes to itself. *)
Theorem decode_field_concatenates
  (bytes_decode : string -> list byte -> result string)
  (decode_words : string -> result (list (segment * option string)))
  (field : string) :
  (forall segs texts,
     decode_header decode_words field = Ok segs ->
     Forall2 (fun seg t => decode_segment bytes_decode seg = Ok t) segs texts ->
     decode_field bytes_decode decode_words field = Ok (join "" texts) /\
     length texts = length segs) /\
  (forall segs seg,
     decode_header decode_words field = Ok segs ->
     seg ∈ segs -> returns (decode_segment bytes_decode seg) = false ->
     returns (decode_field bytes_decode decode_words field) = false) /\
  (forall b charset,
     decode_segment bytes_decode (SegBytes b, charset) =
     bytes_decode (match charset with
                   | Some c => if String.eqb c "" then "utf-8" else c
                   | None => "utf-8"
                   end) b) /\
  (forall s charset, decode_segment bytes_decode (SegStr s, charset) = Ok s) /\
  (ecre_search field = false ->
     decode_field bytes_decode decode_words field = Ok field) /\
  (str_in "=?" field = false ->
     decode_field bytes_decode decode_words field = Ok field).
Proof.
  split_and!.
  - intros segs texts Hh Hs. split; [|symmetry; by eapply Forall2_length].
    apply mapM_Ok_iff in Hs.
    by rewrite (decode_field_segments _ _ _ _ Hh), Hs.
  - intros segs seg Hh Hin Hseg.
    rewrite (decode_field_segments _ _ _ _ Hh).
    pose proof (mapM_raises _ _ _ Hin Hseg) as Hm.
    by destruct (mapM _ segs).
  - intros b [c|]; [|done]. unfold decode_segment, or_else. cbn.
    by destruct (String.eqb c "").
  - done.
  - apply decode_field_plain.
  - intros H. apply decode_field_plain.
    destruct (ecre_search field) eqn:E; [|done].
    apply ecre_search_marker in E. congruence.
Qed.

Lemma decode_field_concatenates_witness :
  ecre_search "Weekly deals" = false /\
  decode_field Reference.codecs_decode Reference.no_encoded_words
    "Weekly deals" = Ok "Weekly deals".
Proof.
  assert (H : ecre_search "Weekly deals" = false) by (vm_compute; reflexivity).
  split; [exact H |].
  destruct (decode_field_concatenates Reference.codecs_decode
              Reference.no_encoded_words "Weekly deals")
    as (Hsegs & _ & _ & _ & Hplain & _).
  destruct (Hsegs [(SegStr "Weekly deals", None)] ["Weekly deals"])
    as [Hjoin _].
  - vm_compute; reflexivity.
  - repeat constructor.
  - rewrite Hjoin. exact (eq_sym (Hplain H)).
Defined.

(** Two [bytes] segments, the first declared utf-8, the second with no
    charset. *)
Example decode_segments_in_order :
  mapM (decode_segment Reference.codecs_decode)
    [ (SegBytes [Byte.x43; Byte.x61; Byte.x66; Byte.xc3; Byte.xa9], Some "utf-8");
      (SegBytes (Reference.bytes_of " menu"), None) ]
  = Ok [ String "C" (String "a" (String "f" (String (ascii_of_nat 233) "")));
         " menu" ].
Proof. vm_compute; reflexivity. Qed.

(** ** The orchestrator *)

Lemma analyze_email_getitem (email_msg : Email) :
  dict_getitem (analyze_email email_msg) "is_unwanted" =
  Ok (str_in "unsubscribe" (lower (content email_msg))).
Proof.
  unfold analyze_email, dict_getitem.
  destruct (str_in _ _); by rewrite lookup_singleton_eq.
Qed.

Section OrchestratorFacts.
Variable World : Type.
Variable agent_run : World -> string -> World * result string.
Variable BeautifulSoup : string -> result node.

Abbreviation handle_email := (handle_email World agent_run BeautifulSoup).
Abbreviation main_loop := (main_loop World agent_run BeautifulSoup).
Abbreviation get_unsubscribe_url := (get_unsubscribe_url BeautifulSoup).

(** The body of the loop, case by case. *)
Lemma handle_email_cases email_msg w :
  handle_email email_msg w =
  if str_in "unsubscribe" (lower (content email_msg)) then
    match get_unsubscribe_url email_msg with
    | Raise e => (w, [CallAnalyze email_msg; CallGetUrl email_msg], Raise e)
    | Ok None => (w, [CallAnalyze email_msg; CallGetUrl email_msg], Ok tt)
    | Ok (Some url) =>
        match agent_run w (agent_prompt +:+ url) with
        | (w', Ok answer) =>
            (w', [CallAnalyze email_msg; CallGetUrl email_msg;
                  CallUnsubscribe url; Print answer], Ok tt)
        | (w', Raise e) =>
            if is_exception e then
              (w', [CallAnalyze email_msg; CallGetUrl email_msg;
                    CallUnsubscribe url; PrintError e], Ok tt)
            else
              (w', [CallAnalyze email_msg; CallGetUrl email_msg;
                    CallUnsubscribe url], Raise e)
        end
    end
  else (w, [CallAnalyze email_msg], Ok tt).
Proof.
  unfold App.handle_email, io_bind, emit, lift, io_ret.
  rewrite analyze_email_getitem.
  destruct (str_in "unsubscribe" (lower (content email_msg))); [|reflexivity].
  destruct (get_unsubscribe_url email_msg) as [[url|]|e]; try reflexivity.
  unfold try_except, unsubscribe_from_email, io_bind, emit.
  destruct (agent_run w (agent_prompt +:+ url)) as [w' [answer|e]];
    [reflexivity |].
  by destruct (is_exception e).
Qed.

Lemma main_loop_nil w : main_loop [] w = (w, [], Ok tt).
Proof. reflexivity. Qed.

Lemma main_loop_cons email_msg rest w :
  main_loop (email_msg :: rest) w =
  match handle_email email_msg w with
  | (w1, evs1, Ok _) =>
      (world_of (main_loop rest w1),
       evs1 ++ events_of (main_loop rest w1),
       outcome_of (main_loop rest w1))
  | (w1, evs1, Raise e) => (w1, evs1, Raise e)
  end.
Proof.
  change (main_loop (email_msg :: rest) w)
    with (io_bind World (handle_email email_msg) (fun _ => main_loop rest) w).
  unfold io_bind. destruct (handle_email email_msg w) as [[w1 evs1] [[]|e]];
    [|reflexivity].
  by destruct (main_loop rest w1) as [[w2 evs2] r].
Qed.


(** Where an exception of the body of the loop comes from: the link
    extraction, or the agent when the exception is no instance of
    [Exception]. *)
Lemma handle_email_raise email_msg w e :
  outcome_of (handle_email email_msg w) = Raise e ->
  str_in "unsubscribe" (lower (content email_msg)) = true /\
  (get_unsubscribe_url email_msg = Raise e \/
   (is_exception e = false /\
    exists url w',
      get_unsubscribe_url email_msg = Ok (Some url) /\
      agent_run w (agent_prompt +:+ url) = (w', Raise e))).
Proof.
  rewrite handle_email_cases.
  destruct (str_in _ _); [|done].
  destruct (get_unsubscribe_url email_msg) as [[url|]|e0]; [|done |].
  - destruct (agent_run w _) as [w' [answer|e0]] eqn:Ea; [done |].
    destruct (is_exception e0) eqn:Ee; [done |].
    intros [= <-]. split; [done |]. right. split; [done |].
    by exists url, w'.
  - intros [= <-]. by split; [|left].
Qed.

Lemma main_loop_raise emails w e :
  outcome_of (main_loop emails w) = Raise e ->
  exists email_msg w0,
    email_msg ∈ emails /\ outcome_of (handle_email email_msg w0) = Raise e.
Proof.
  revert w. induction emails as [|email_msg rest IH]; intros w.
  - by rewrite main_loop_nil.
  - rewrite main_loop_cons.
    destruct (handle_email email_msg w) as [[w1 evs1] [[]|e0]] eqn:E.
    + unfold outcome_of at 1. cbn [snd]. intros H.
      destruct (IH _ H) as (m & w0 & Hin & Hm).
      exists m, w0. split; [by apply list_elem_of_further | done].
    + unfold outcome_of at 1. cbn [snd]. intros [= <-].
      exists email_msg, w. rewrite E. split; [apply list_elem_of_here | done].
Qed.

Lemma handle_email_analyzes email_msg w :
  CallAnalyze email_msg ∈ events_of (handle_email email_msg w).
Proof.
  rewrite handle_email_cases.
  destruct (str_in _ _); [|by apply list_elem_of_here].
  destruct (get_unsubscribe_url email_msg) as [[url|]|e];
    try by apply list_elem_of_here.
  destruct (agent_run w _) as [w' [answer|e]]; [by apply list_elem_of_here |].
  destruct (is_exception e); by apply list_elem_of_here.
Qed.

Lemma main_loop_analyzes emails w :
  outcome_of (main_loop emails w) = Ok tt ->
  Forall (fun email_msg => CallAnalyze email_msg ∈ events_of (main_loop emails w))
         emails.
Proof.
  revert w. induction emails as [|email_msg rest IH]; intros w; [done |].
  rewrite main_loop_cons.
  pose proof (handle_email_analyzes email_msg w) as Ha.
  destruct (handle_email email_msg w) as [[w1 evs1] [[]|e]]; [|done].
  unfold outcome_of, events_of in *. cbn [fst snd] in *. intros Ho.
  constructor.
  - apply elem_of_app. by left.
  - eapply Forall_impl; [exact (IH w1 Ho) |]. intros x Hx.
    apply elem_of_app. by right.
Qed.

(** When the link extraction returns for every message, only an exception
    of the agent that is no instance of [Exception] can end the loop. *)
Lemma main_loop_completes emails w :
  Forall (fun email_msg => returns (get_unsubscribe_url email_msg) = true)
         emails ->
  (forall e, outcome_of (main_loop emails w) = Raise e ->
             is_exception e = false /\
             exists url w0 w', agent_run w0 (agent_prompt +:+ url) = (w', Raise e)) /\
  ((forall w0 prompt w' e,
      agent_run w0 prompt = (w', Raise e) -> is_exception e = true) ->
   outcome_of (main_loop emails w) = Ok tt /\
   Forall (fun email_msg =>
             CallAnalyze email_msg ∈ events_of (main_loop emails w))
          emails).
Proof.
  intros Hret.
  assert (Hraise : forall e, outcome_of (main_loop emails w) = Raise e ->
            is_exception e = false /\
            exists url w0 w',
              agent_run w0 (agent_prompt +:+ url) = (w', Raise e)).
  { intros e He. apply main_loop_raise in He as (m & w0 & Hin & Hm).
    apply handle_email_raise in Hm as [_ [Hm | (Hne & url & w' & _ & Ha)]].
    - rewrite Forall_forall in Hret. specialize (Hret m Hin).
      by rewrite Hm in Hret.
    - split; [done |]. by exists url, w0, w'. }
  split; [exact Hraise |]. intros Hagent.
  assert (Ho : outcome_of (main_loop emails w) = Ok tt).
  { destruct (outcome_of (main_loop emails w)) as [[]|e] eqn:E; [done |].
    destruct (Hraise e eq_refl) as (Hne & url & w0 & w' & Ha).
    rewrite (Hagent _ _ _ _ Ha) in Hne. discriminate. }
  split; [exact Ho | by apply main_loop_analyzes].
Qed.

(** Every dispatch and every link extraction of a run is that of a message
    of the batch that was classified unwanted. *)
Lemma handle_email_events email_msg w ev :
  ev ∈ events_of (handle_email email_msg w) ->
  match ev with
  | CallGetUrl e =>
      e = email_msg /\ str_in "unsubscribe" (lower (content e)) = true
  | CallUnsubscribe url =>
      str_in "unsubscribe" (lower (content email_msg)) = true /\
      get_unsubscribe_url email_msg = Ok (Some url)
  | _ => True
  end.
Proof.
  rewrite handle_email_cases.
  destruct (str_in _ _) eqn:Eu.
  - destruct (get_unsubscribe_url email_msg) as [[url|]|e] eqn:Eg.
    + destruct (agent_run w _) as [w' [answer|e]];
        [|destruct (is_exception e)]; unfold events_of; cbn;
        rewrite !elem_of_cons, elem_of_nil;
        intros H; repeat (destruct H as [->|H]; [done |]); done.
    + unfold events_of; cbn. rewrite !elem_of_cons, elem_of_nil.
      intros [->|[->|[]]]; done.
    + unfold events_of; cbn. rewrite !elem_of_cons, elem_of_nil.
      intros [->|[->|[]]]; done.
  - unfold events_of; cbn. rewrite !elem_of_cons, elem_of_nil.
    intros [->|[]]; done.
Qed.

Lemma main_loop_events emails w ev :
  ev ∈ events_of (main_loop emails w) ->
  exists email_msg w', email_msg ∈ emails /\
                       ev ∈ events_of (handle_email email_msg w').
Proof.
  revert w. induction emails as [|email_msg rest IH]; intros w.
  - rewrite main_loop_nil. unfold events_of. cbn. by rewrite elem_of_nil.
  - rewrite main_loop_cons.
    destruct (handle_email email_msg w) as [[w1 evs1] [[]|e]] eqn:E; intros H.
    + unfold events_of at 1 in H. cbn in H. apply elem_of_app in H as [H|H].
      * exists email_msg, w. rewrite E. split; [apply list_elem_of_here | done].
      * destruct (IH _ H) as (m & w' & Hin & Hev).
        exists m, w'. split; [by apply list_elem_of_further | done].
    + unfold events_of at 1 in H. cbn in H.
      exists email_msg, w. rewrite E. split; [apply list_elem_of_here | done].
Qed.

End OrchestratorFacts.

Section MainFacts.
Variable World : Type.
Variable agent_run : World -> string -> World * result string.
Variable BeautifulSoup : string -> result node.
Variable bytes_decode : string -> list byte -> result string.
Variable decode_words : string -> result (list (segment * option string)).
Variable search_all : result (list string).
Variable fetch : string -> result Fetched.

Abbreviation fetch_email := (fetch_email bytes_decode decode_words fetch).
Abbreviation connect_to_email :=
  (connect_to_email bytes_decode decode_words search_all fetch).
Abbreviation main :=
  (main World agent_run BeautifulSoup bytes_decode decode_words search_all fetch).

Lemma fetch_email_content_raises e_id msg :
  fetch e_id = Ok msg ->
  returns (get_content bytes_decode (body msg)) = false ->
  returns (fetch_email e_id) = false.
Proof.
  intros Hf Hc. unfold App.fetch_email. rewrite Hf. cbn.
  destruct (decode_field_of _ _ (header_subject msg)); [|done]. cbn.
  destruct (decode_field_of _ _ (header_from msg)); [|done]. cbn.
  by destruct (get_content bytes_decode (body msg)).
Qed.

Lemma connect_to_email_raises ids e_id :
  search_all = Ok ids -> e_id ∈ last_n 100 ids ->
  returns (fetch_email e_id) = false ->
  returns connect_to_email = false.
Proof.
  intros Hs Hin Hr. unfold App.connect_to_email. rewrite Hs. cbn.
  by apply (mapM_raises _ _ e_id).
Qed.

Lemma main_cases w :
  main w =
  match connect_to_email with
  | Ok emails => main_loop World agent_run BeautifulSoup emails w
  | Raise e => (w, [], Raise e)
  end.
Proof.
  unfold App.main, io_bind, lift.
  destruct connect_to_email as [emails|e]; [|reflexivity].
  by destruct (main_loop _ _ _ emails w) as [[w2 evs2] r].
Qed.

End MainFacts.

(** C3, as amended. [get_content] does not isolate a part that fails to
    decode: when a leaf that is no attachment fails to decode, the call on
    the whole tree raises, with the exception of the first part that raises
    after the parts that returned. [connect_to_email] then raises as well,
    and [main] ends with that exception before it classifies or dispatches
    any message of the batch. *)
Theorem decode_failure_propagates
  (World : Type) (agent_run : World -> string -> World * result string)
  (BeautifulSoup : string -> result node)
  (bytes_decode : string -> list byte -> result string)
  (decode_words : string -> result (list (segment * option string)))
  (search_all : result (list string)) (fetch : string -> result Fetched) :
  (forall msg cd payload cs,
     part_of (Leaf cd payload cs) msg -> is_attachment cd = false ->
     returns (bytes_decode (or_else cs "utf-8") payload) = false ->
     returns (get_content bytes_decode msg) = false) /\
  (forall before part after texts e,
     Forall2 (fun p t => get_content bytes_decode p = Ok t) before texts ->
     get_content bytes_decode part = Raise e ->
     get_content bytes_decode (Multipart (before ++ part :: after)) = Raise e) /\
  (forall ids e_id msg w,
     search_all = Ok ids -> e_id ∈ last_n 100 ids -> fetch e_id = Ok msg ->
     returns (get_content bytes_decode (body msg)) = false ->
     exists e,
       connect_to_email bytes_decode decode_words search_all fetch = Raise e /\
       main World agent_run BeautifulSoup bytes_decode decode_words
            search_all fetch w = (w, [], Raise e)).
Proof.
  split_and!.
  - intros msg cd payload cs Hpart Hatt Hdec.
    apply (get_content_part_raises _ _ _ Hpart).
    by rewrite get_content_leaf, Hatt, decode_leaf_charset.
  - intros before part after texts e Hb Hp. apply mapM_Ok_iff in Hb.
    by rewrite get_content_multipart, (mapM_first_raise _ _ _ _ _ _ Hb Hp).
  - intros ids e_id msg w Hs Hin Hf Hc.
    pose proof (connect_to_email_raises bytes_decode decode_words search_all
                  fetch ids e_id Hs Hin
                  (fetch_email_content_raises bytes_decode decode_words fetch
                     e_id msg Hf Hc)) as Hr.
    rewrite main_cases.
    destruct (connect_to_email _ _ _ _) as [emails|e]; [done |].
    by exists e.
Qed.

Lemma decode_failure_propagates_witness :
  get_content Reference.codecs_decode Scenarios.undecodable_part =
    Raise UnicodeDecodeError /\
  exists e,
    main (list (result string)) Reference.scripted_agent Reference.html_parser
         Reference.codecs_decode Reference.no_encoded_words
         (Ok ["1"; "2"; "3"]) (Reference.mailbox_fetch Scenarios.three_messages)
         [] = ([], [], Raise e).
Proof.
  pose proof (decode_failure_propagates (list (result string))
    Reference.scripted_agent Reference.html_parser Reference.codecs_decode
    Reference.no_encoded_words (Ok ["1"; "2"; "3"])
    (Reference.mailbox_fetch Scenarios.three_messages)) as (_ & Hparts & Hmain).
  split.
  - apply (Hparts [Leaf None (Reference.bytes_of "Hello") (Some "us-ascii")]
             (Leaf None [Byte.xff] (Some "us-ascii")) [] ["Hello"]).
    + repeat constructor.
    + vm_compute; reflexivity.
  - destruct (Hmain ["1"; "2"; "3"] "2"
                (mkFetched (Some (HeaderStr "Hi"))
                           (Some (HeaderStr "someone@d.example"))
                           Scenarios.undecodable_part) [])
      as (e & _ & He).
    + reflexivity.
    + vm_compute. apply list_elem_of_further, list_elem_of_here.
    + vm_compute; reflexivity.
    + vm_compute; reflexivity.
    + by exists e.
Defined.

(** C3 as stated fails: the multipart message whose second part does not
    decode makes [get_content] raise, where the claim has it return the first
    part and an empty contribution; and the batch of three with that message
    second ends in the decoding error with no message processed. *)
Lemma decode_failure_counterexample :
  get_content Reference.codecs_decode Scenarios.undecodable_part =
    Raise UnicodeDecodeError /\
  get_content Reference.codecs_decode Scenarios.undecodable_part <>
    Ok ("Hello" +:+ newline) /\
  main (list (result string)) Reference.scripted_agent Reference.html_parser
       Reference.codecs_decode Reference.no_encoded_words
       (Ok ["1"; "2"; "3"]) (Reference.mailbox_fetch Scenarios.three_messages)
       [] = ([], [], Raise UnicodeDecodeError).
Proof. split_and!; [vm_compute; reflexivity | discriminate | vm_compute; reflexivity]. Qed.




(** C8. When the call of the agent for a message raises an exception (an
    instance of [Exception]), the exception is caught and printed, the body
    of the loop returns for this message, and the loop goes on with the
    remaining messages. No such failure of the agent ends the batch: when
    the link extraction returns for every message, the loop can only end
    with an exception of the agent that is no instance of [Exception], and
    with an agent that raises instances of [Exception] only the loop returns
    and every message was classified. *)
Theorem dispatch_failure_is_caught
  (World : Type) (agent_run : World -> string -> World * result string)
  (BeautifulSoup : string -> result node) :
  (forall email_msg rest w url w' e,
     dict_getitem (analyze_email email_msg) "is_unwanted" = Ok true ->
     get_unsubscribe_url BeautifulSoup email_msg = Ok (Some url) ->
     agent_run w (agent_prompt +:+ url) = (w', Raise e) ->
     is_exception e = true ->
     handle_email World agent_run BeautifulSoup email_msg w =
       (w', [CallAnalyze email_msg; CallGetUrl email_msg;
             CallUnsubscribe url; PrintError e], Ok tt) /\
     main_loop World agent_run BeautifulSoup (email_msg :: rest) w =
       (world_of (main_loop World agent_run BeautifulSoup rest w'),
        [CallAnalyze email_msg; CallGetUrl email_msg;
         CallUnsubscribe url; PrintError e] ++
        events_of (main_loop World agent_run BeautifulSoup rest w'),
        outcome_of (main_loop World agent_run BeautifulSoup rest w'))) /\
  (forall emails w,
     Forall (fun email_msg =>
               returns (get_unsubscribe_url BeautifulSoup email_msg) = true)
            emails ->
     (forall e,
        outcome_of (main_loop World agent_run BeautifulSoup emails w)
          = Raise e ->
        is_exception e = false /\
        exists url w0 w',
          agent_run w0 (agent_prompt +:+ url) = (w', Raise e)) /\
     ((forall w0 prompt w' e,
         agent_run w0 prompt = (w', Raise e) -> is_exception e = true) ->
      outcome_of (main_loop World agent_run BeautifulSoup emails w) = Ok tt /\
      Forall (fun email_msg =>
                CallAnalyze email_msg ∈
                events_of (main_loop World agent_run BeautifulSoup emails w))
             emails)).
Proof.
  split.
  - intros email_msg rest w url w' e Hu Hurl Hagent He.
    rewrite analyze_email_getitem in Hu. injection Hu as Hu.
    assert (Hbody : handle_email World agent_run BeautifulSoup email_msg w =
      (w', [CallAnalyze email_msg; CallGetUrl email_msg;
            CallUnsubscribe url; PrintError e], Ok tt)).
    { by rewrite handle_email_cases, Hu, Hurl, Hagent, He. }
    split; [exact Hbody |]. by rewrite main_loop_cons, Hbody.
  - apply main_loop_completes.
Qed.

Lemma dispatch_failure_is_caught_witness :
  main_loop (list (result string)) Reference.scripted_agent
    Reference.html_parser
    [Scenarios.decoy_then_link; Scenarios.three_links]
    [Raise (OtherException "TimeoutError"); Ok "done"] =
  ([], [CallAnalyze Scenarios.decoy_then_link;
        CallGetUrl Scenarios.decoy_then_link;
        CallUnsubscribe "http://x.com/unsubscribe-final";
        PrintError (OtherException "TimeoutError");
        CallAnalyze Scenarios.three_links;
        CallGetUrl Scenarios.three_links;
        CallUnsubscribe "http://a.example/3";
        Print "done"],
   Ok tt) /\
  outcome_of
    (main_loop nat Inputs.timing_out_agent Reference.html_parser
       [Scenarios.decoy_then_link; Scenarios.personal_note;
        Scenarios.three_links] 0) = Ok tt.
Proof.
  destruct (dispatch_failure_is_caught (list (result string))
              Reference.scripted_agent Reference.html_parser) as [Hone _].
  destruct (dispatch_failure_is_caught nat Inputs.timing_out_agent
              Reference.html_parser) as [_ Hall].
  split.
  - destruct (Hone Scenarios.decoy_then_link [Scenarios.three_links]
                [Raise (OtherException "TimeoutError"); Ok "done"]
                "http://x.com/unsubscribe-final" [Ok "done"]
                (OtherException "TimeoutError")) as [_ Hloop];
      [vm_compute; reflexivity .. |].
    rewrite Hloop. vm_compute; reflexivity.
  - destruct (Hall [Scenarios.decoy_then_link; Scenarios.personal_note;
                    Scenarios.three_links] 0) as [_ Hreturns].
    + repeat constructor; vm_compute; reflexivity.
    + apply Hreturns. intros w0 prompt w' e.
      unfold Inputs.timing_out_agent. destruct (Nat.even w0).
      * intros [= _ <-]. reflexivity.
      * discriminate.
Defined.

(** C9. For a message that is not classified unwanted the body of the loop
    calls neither the link extraction nor the agent; for an unwanted message
    with no link it calls the link extraction and not the agent. In a run of
    the loop, every link extraction is for a message classified unwanted and
    every call of the agent is for a link the extraction returned for such a
    message. *)
Theorem no_dispatch_without_link
  (World : Type) (agent_run : World -> string -> World * result string)
  (BeautifulSoup : string -> result node) :
  (forall email_msg w,
     dict_getitem (analyze_email email_msg) "is_unwanted" = Ok false ->
     handle_email World agent_run BeautifulSoup email_msg w =
       (w, [CallAnalyze email_msg], Ok tt)) /\
  (forall email_msg w,
     dict_getitem (analyze_email email_msg) "is_unwanted" = Ok true ->
     get_unsubscribe_url BeautifulSoup email_msg = Ok None ->
     handle_email World agent_run BeautifulSoup email_msg w =
       (w, [CallAnalyze email_msg; CallGetUrl email_msg], Ok tt)) /\
  (forall emails w email_msg,
     CallGetUrl email_msg ∈
       events_of (main_loop World agent_run BeautifulSoup emails w) ->
     email_msg ∈ emails /\
     dict_getitem (analyze_email email_msg) "is_unwanted" = Ok true) /\
  (forall emails w url,
     CallUnsubscribe url ∈
       events_of (main_loop World agent_run BeautifulSoup emails w) ->
     exists email_msg,
       email_msg ∈ emails /\
       dict_getitem (analyze_email email_msg) "is_unwanted" = Ok true /\
       get_unsubscribe_url BeautifulSoup email_msg = Ok (Some url)).
Proof.
  split_and!.
  - intros email_msg w Hu. rewrite analyze_email_getitem in Hu.
    injection Hu as Hu. by rewrite handle_email_cases, Hu.
  - intros email_msg w Hu Hurl. rewrite analyze_email_getitem in Hu.
    injection Hu as Hu. by rewrite handle_email_cases, Hu, Hurl.
  - intros emails w email_msg H.
    apply main_loop_events in H as (m & w' & Hin & Hev).
    apply handle_email_events in Hev as [-> Hu].
    by rewrite analyze_email_getitem, Hu.
  - intros emails w url H.
    apply main_loop_events in H as (m & w' & Hin & Hev).
    apply handle_email_events in Hev as [Hu Hurl].
    exists m. by rewrite analyze_email_getitem, Hu.
Qed.

Lemma no_dispatch_without_link_witness :
  handle_email (list (result string)) Reference.scripted_agent
    Reference.html_parser Scenarios.personal_note [Ok "unused"] =
    ([Ok "unused"], [CallAnalyze Scenarios.personal_note], Ok tt) /\
  handle_email (list (result string)) Reference.scripted_agent
    Reference.html_parser Scenarios.relative_link [Ok "unused"] =
    ([Ok "unused"], [CallAnalyze Scenarios.relative_link;
                     CallGetUrl Scenarios.relative_link], Ok tt).
Proof.
  destruct (no_dispatch_without_link (list (result string))
              Reference.scripted_agent Reference.html_parser)
    as (Hskip & Hnolink & _).
  split.
  - apply Hskip. vm_compute; reflexivity.
  - apply Hnolink; vm_compute; reflexivity.
Defined.

(** ** Further properties of the content extractor *)

Lemma mapM_id_returns {A} (l : list (result A)) :
  returns (mapM id l) = forallb returns l.
Proof.
  induction l as [|r l IH]; [done |].
  rewrite mapM_cons. cbn [forallb]. rewrite <- IH.
  destruct r; [|done]. by destruct (mapM id l).
Qed.

Lemma mapM_id_raise_iff {A} (l : list (result A)) (e : exn) :
  mapM id l = Raise e <->
  exists before after,
    l = before ++ Raise e :: after /\ forallb returns before = true.
Proof.
  induction l as [|r l IH].
  - split; [done |]. intros (before & after & H & _). by destruct before.
  - rewrite mapM_cons. destruct r as [a|e'].
    + transitivity (mapM id l = Raise e).
      { destruct (mapM id l) as [ys|e0];
          [split; intros H; discriminate H | split; intros H; exact H]. }
      rewrite IH. split.
      * intros (before & after & -> & Hb). by exists (Ok a :: before), after.
      * intros (before & after & H & Hb). destruct before as [|b before].
        { discriminate. }
        injection H as <- ->. exists before, after. split; [done |].
        by apply andb_true_iff in Hb as [_ Hb].
    + split.
      * intros [= ->]. by exists [], l.
      * intros (before & after & H & Hb). destruct before as [|b before].
        { by injection H as ->. }
        injection H as <- _. discriminate.
Qed.

Lemma contributions_multipart
  (bytes_decode : string -> list byte -> result string) (ps : list Message) :
  ps ≠ [] ->
  contributions bytes_decode (Multipart ps) =
  flat_map (contributions bytes_decode) ps.
Proof. by destruct ps. Qed.

(** X5. [get_content] returns exactly when every contribution of the tree
    returns, and it raises [e] exactly when [e] is raised by the first
    contribution, depth first, that raises. *)
Theorem get_content_first_failure
  (bytes_decode : string -> list byte -> result string) (msg : Message) :
  returns (get_content bytes_decode msg) =
    forallb returns (contributions bytes_decode msg) /\
  (forall e,
     get_content bytes_decode msg = Raise e <->
     exists before after,
       contributions bytes_decode msg = before ++ Raise e :: after /\
       forallb returns before = true).
Proof.
  rewrite get_content_contributions. split.
  - rewrite <- mapM_id_returns. by destruct (mapM id _).
  - intros e. rewrite <- mapM_id_raise_iff.
    destruct (mapM id _) as [texts|e0];
      [split; intros H; discriminate H
      | split; intros H; cbn in H; injection H as ->; reflexivity].
Qed.

Lemma get_content_agree_ind
  (d1 d2 : string -> list byte -> result string) (msg : Message) :
  Forall (fun leaf => d1 leaf.1 leaf.2 = d2 leaf.1 leaf.2)
         (decoded_leaves msg) ->
  get_content d1 msg = get_content d2 msg.
Proof.
  induction msg as [cd payload cs | ps IH] using Message_tree_ind; intros H.
  - rewrite !get_content_leaf, !decode_leaf_charset.
    cbn [decoded_leaves] in H. destruct (is_attachment cd); [done |].
    by inversion H.
  - rewrite !get_content_multipart. f_equal.
    apply mapM_ext_Forall.
    cbn [decoded_leaves] in H. induction IH as [|p ps Hp _ IHps]; [done |].
    cbn [flat_map] in H. apply Forall_app in H as [H1 H2].
    constructor; [by apply Hp | by apply IHps].
Qed.

(** X6. [get_content] consults the codec only for the leaves that are no
    attachments, with the declared charset or utf-8: two codec registries
    that agree on those leaves give the same result. A tree in which every
    leaf is an attachment never raises. *)
Theorem get_content_codec_only_for_decoded_leaves
  (d1 d2 : string -> list byte -> result string) (msg : Message) :
  Forall (fun leaf => d1 leaf.1 leaf.2 = d2 leaf.1 leaf.2)
         (decoded_leaves msg) ->
  get_content d1 msg = get_content d2 msg /\
  (decoded_leaves msg = [] -> returns (get_content d1 msg) = true).
Proof.
  intros H. split; [by apply get_content_agree_ind |].
  intros Hnone.
  rewrite (get_content_agree_ind d1 (fun _ _ => Ok "") msg)
    by (rewrite Hnone; constructor).
  clear. induction msg as [cd payload cs | ps IH] using Message_tree_ind.
  - rewrite get_content_leaf, decode_leaf_charset. by destruct (is_attachment cd).
  - rewrite get_content_multipart.
    assert (Hps : returns (mapM (get_content (fun _ _ => Ok "")) ps) = true).
    { induction IH as [|p ps Hp _ IHps]; [done |].
      rewrite mapM_cons. destruct (get_content _ p); [|done].
      by destruct (mapM _ ps). }
    by destruct (mapM _ ps).
Qed.

Lemma get_content_codec_only_for_decoded_leaves_witness :
  get_content Inputs.codecs_without_latin_1 Scenarios.text_and_attachment =
  get_content Reference.codecs_decode Scenarios.text_and_attachment.
Proof.
  apply (get_content_codec_only_for_decoded_leaves
           Inputs.codecs_without_latin_1 Reference.codecs_decode
           Scenarios.text_and_attachment).
  repeat constructor.
Defined.

(** X7. Nested multipart nodes flatten: a multipart part with at least one
    part can be replaced by its parts, a multipart node with one part gives
    what the part gives, and one without parts gives the empty string. *)
Theorem get_content_nested_multipart
  (bytes_decode : string -> list byte -> result string)
  (before inner after : list Message) :
  inner ≠ [] ->
  get_content bytes_decode (Multipart (before ++ Multipart inner :: after)) =
    get_content bytes_decode (Multipart (before ++ inner ++ after)) /\
  (forall p, get_content bytes_decode (Multipart [p]) =
             get_content bytes_decode p) /\
  get_content bytes_decode (Multipart []) = Ok "".
Proof.
  intros Hinner. split_and!.
  - rewrite !(get_content_contributions _ (Multipart _)).
    rewrite (contributions_multipart _ (before ++ Multipart inner :: after))
      by (by destruct before).
    rewrite (contributions_multipart _ (before ++ inner ++ after))
      by (by destruct before, inner).
    rewrite !flat_map_app. cbn [flat_map].
    by rewrite (contributions_multipart _ inner) by done.
  - intros p. rewrite !(get_content_contributions _ (Multipart _)).
    rewrite contributions_multipart by done. cbn [flat_map].
    rewrite app_nil_r. by rewrite <- get_content_contributions.
  - reflexivity.
Qed.

Lemma get_content_nested_multipart_witness :
  get_content Reference.codecs_decode
    (Multipart (Leaf None (Reference.bytes_of "one") None
                :: Multipart Inputs.nested_parts :: [])) =
  get_content Reference.codecs_decode
    (Multipart (Leaf None (Reference.bytes_of "one") None
                :: Inputs.nested_parts)).
Proof.
  apply (get_content_nested_multipart Reference.codecs_decode
           [Leaf None (Reference.bytes_of "one") None]
           Inputs.nested_parts []).
  discriminate.
Defined.

(** ** Further properties of the fetch loop *)

Lemma last_n_length {A} (n : nat) (l : list A) :
  length (last_n n l) = min n (length l).
Proof. unfold last_n. rewrite length_drop. lia. Qed.

Lemma connect_to_email_cases
  (bytes_decode : string -> list byte -> result string)
  (decode_words : string -> result (list (segment * option string)))
  (search_all : result (list string)) (fetch : string -> result Fetched)
  (ids : list string) :
  search_all = Ok ids ->
  connect_to_email bytes_decode decode_words search_all fetch =
  mapM (fetch_email bytes_decode decode_words fetch) (last_n 100 ids).
Proof. intros H. unfold connect_to_email. by rewrite H. Qed.

(** X1. When [connect_to_email] returns, it returns one message for each of
    the last 100 ids the search lists, in their order, and no more: all of
    them when the search lists at most 100. *)
Theorem connect_to_email_last_hundred
  (bytes_decode : string -> list byte -> result string)
  (decode_words : string -> result (list (segment * option string)))
  (search_all : result (list string)) (fetch : string -> result Fetched)
  (ids : list string) (emails : list Email) :
  search_all = Ok ids ->
  connect_to_email bytes_decode decode_words search_all fetch = Ok emails ->
  length emails = min 100 (length ids) /\
  Forall2 (fun e_id email_msg =>
             fetch_email bytes_decode decode_words fetch e_id = Ok email_msg)
          (last_n 100 ids) emails /\
  ids = take (length ids - 100) ids ++ last_n 100 ids /\
  (length ids <= 100 -> last_n 100 ids = ids).
Proof.
  intros Hs Hc. rewrite (connect_to_email_cases _ _ _ _ _ Hs) in Hc.
  split_and!.
  - rewrite (mapM_length _ _ _ Hc). apply last_n_length.
  - by apply mapM_Ok_iff.
  - unfold last_n. by rewrite take_drop.
  - intros Hle. unfold last_n. by replace (length ids - 100) with 0 by lia.
Qed.

Lemma connect_to_email_last_hundred_witness :
  length (replicate 100 (mkEmail "Weekly deals"
                           (content Scenarios.decoy_then_link) "deals@x.com"))
  = min 100 (length (replicate 150 "1")).
Proof.
  apply (connect_to_email_last_hundred Reference.codecs_decode
           Reference.no_encoded_words (Ok (replicate 150 "1"))
           (Reference.mailbox_fetch Inputs.one_message)
           (replicate 150 "1")
           (replicate 100 (mkEmail "Weekly deals"
                             (content Scenarios.decoy_then_link)
                             "deals@x.com"))).
  - reflexivity.
  - vm_compute; reflexivity.
Defined.

(** X2. The messages before the last 100 are never fetched: two mail
    sessions that agree on the last 100 ids give the same result. *)
Theorem connect_to_email_ignores_older
  (bytes_decode : string -> list byte -> result string)
  (decode_words : string -> result (list (segment * option string)))
  (search_all : result (list string)) (fetch1 fetch2 : string -> result Fetched)
  (ids : list string) :
  search_all = Ok ids ->
  Forall (fun e_id => fetch1 e_id = fetch2 e_id) (last_n 100 ids) ->
  connect_to_email bytes_decode decode_words search_all fetch1 =
  connect_to_email bytes_decode decode_words search_all fetch2.
Proof.
  intros Hs H. rewrite !(connect_to_email_cases _ _ _ _ _ Hs).
  apply mapM_ext_Forall. eapply Forall_impl; [exact H |].
  intros e_id He. unfold fetch_email. by rewrite He.
Qed.

Lemma connect_to_email_ignores_older_witness :
  connect_to_email Reference.codecs_decode Reference.no_encoded_words
    (Ok ("old" :: replicate 100 "1"))
    (Reference.mailbox_fetch Inputs.one_message) =
  connect_to_email Reference.codecs_decode Reference.no_encoded_words
    (Ok ("old" :: replicate 100 "1"))
    (Reference.mailbox_fetch Inputs.one_message_and_old).
Proof.
  apply (connect_to_email_ignores_older Reference.codecs_decode
           Reference.no_encoded_words (Ok ("old" :: replicate 100 "1"))
           (Reference.mailbox_fetch Inputs.one_message)
           (Reference.mailbox_fetch Inputs.one_message_and_old)
           ("old" :: replicate 100 "1")).
  - reflexivity.
  - change (last_n 100 ("old" :: replicate 100 "1"))
      with (replicate 100 "1").
    apply Forall_replicate. vm_compute; reflexivity.
Defined.

Lemma fetch_email_fetched
  (bytes_decode : string -> list byte -> result string)
  (decode_words : string -> result (list (segment * option string)))
  (fetch : string -> result Fetched) (e_id : string) (msg : Fetched) :
  fetch e_id = Ok msg ->
  fetch_email bytes_decode decode_words fetch e_id =
  decoded_subj ← decode_field_of bytes_decode decode_words (header_subject msg);
  decoded_from ← decode_field_of bytes_decode decode_words (header_from msg);
  content ← get_content bytes_decode (body msg);
  mret (mkEmail decoded_subj content decoded_from).
Proof. intros H. unfold fetch_email. by rewrite H. Qed.

(** X3. A fetched message without a Subject header, or without a From
    header, makes the fetch loop raise: [decode_field] is called on [None],
    which is a [TypeError]. *)
Theorem connect_to_email_missing_header
  (bytes_decode : string -> list byte -> result string)
  (decode_words : string -> result (list (segment * option string)))
  (search_all : result (list string)) (fetch : string -> result Fetched)
  (ids : list string) (e_id : string) (msg : Fetched) :
  fetch e_id = Ok msg ->
  header_subject msg = None \/ header_from msg = None ->
  (header_subject msg = None ->
   fetch_email bytes_decode decode_words fetch e_id = Raise TypeError) /\
  (returns (decode_field_of bytes_decode decode_words (header_subject msg))
     = true ->
   fetch_email bytes_decode decode_words fetch e_id = Raise TypeError) /\
  returns (fetch_email bytes_decode decode_words fetch e_id) = false /\
  (search_all = Ok ids -> e_id ∈ last_n 100 ids ->
   returns (connect_to_email bytes_decode decode_words search_all fetch)
     = false).
Proof.
  intros Hf Hmissing.
  assert (Hsubj : header_subject msg = None ->
            fetch_email bytes_decode decode_words fetch e_id = Raise TypeError).
  { intros Hs. by rewrite (fetch_email_fetched _ _ _ _ _ Hf), Hs. }
  assert (Hfrom : header_from msg = None ->
            returns (decode_field_of bytes_decode decode_words
                       (header_subject msg)) = true ->
            fetch_email bytes_decode decode_words fetch e_id = Raise TypeError).
  { intros Hs Hr. rewrite (fetch_email_fetched _ _ _ _ _ Hf), Hs.
    by destruct (decode_field_of _ _ (header_subject msg)). }
  assert (Hraise : returns (fetch_email bytes_decode decode_words fetch e_id)
                   = false).
  { destruct Hmissing as [Hs|Hs]; [by rewrite Hsubj |].
    destruct (returns (decode_field_of bytes_decode decode_words
                         (header_subject msg))) eqn:E; [by rewrite Hfrom |].
    rewrite (fetch_email_fetched _ _ _ _ _ Hf).
    by destruct (decode_field_of _ _ (header_subject msg)). }
  split_and!; [exact Hsubj | | exact Hraise |].
  - intros Hr. destruct Hmissing as [Hs|Hs]; [by apply Hsubj | by apply Hfrom].
  - intros Hs Hin. by eapply connect_to_email_raises.
Qed.

Lemma connect_to_email_missing_header_witness :
  fetch_email Reference.codecs_decode Reference.no_encoded_words
    (fun _ => Ok Inputs.no_subject) "7" = Raise TypeError.
Proof.
  destruct (connect_to_email_missing_header Reference.codecs_decode
              Reference.no_encoded_words (Ok ["7"])
              (fun _ => Ok Inputs.no_subject) ["7"] "7" Inputs.no_subject
              eq_refl (or_introl eq_refl)) as [Hsubject _].
  apply Hsubject. reflexivity.
Defined.

(** X4. A fetched message whose Subject and From come back as [str] and
    hold no encoded word, and whose body is extracted, gives the [Email]
    with exactly these headers and that content. When the Subject comes
    back as a [Header] object, for raw 8-bit bytes, its bytes are decoded
    with the charset unknown-8bit, and the fetch raises what the codec
    registry raises for it. *)
Theorem fetch_email_plain_headers
  (bytes_decode : string -> list byte -> result string)
  (decode_words : string -> result (list (segment * option string)))
  (fetch : string -> result Fetched)
  (e_id : string) (msg : Fetched) :
  fetch e_id = Ok msg ->
  (forall subj from text,
     header_subject msg = Some (HeaderStr subj) ->
     header_from msg = Some (HeaderStr from) ->
     ecre_search subj = false -> ecre_search from = false ->
     get_content bytes_decode (body msg) = Ok text ->
     fetch_email bytes_decode decode_words fetch e_id =
     Ok (mkEmail subj text from)) /\
  (forall raw e,
     header_subject msg = Some (Header8bit raw) ->
     bytes_decode "unknown-8bit" raw = Raise e ->
     fetch_email bytes_decode decode_words fetch e_id = Raise e).
Proof.
  intros Hf. split.
  - intros subj from text Hs Hfr Hps Hpf Hc.
    rewrite (fetch_email_fetched _ _ _ _ _ Hf), Hs, Hfr.
    cbn [decode_field_of].
    rewrite !decode_field_plain by done. by rewrite Hc.
  - intros raw e Hs He.
    rewrite (fetch_email_fetched _ _ _ _ _ Hf), Hs.
    cbn [decode_field_of]. rewrite mapM_cons.
    unfold decode_segment, or_else. cbn. by rewrite He.
Qed.

Lemma fetch_email_plain_headers_witness :
  fetch_email Reference.codecs_decode Reference.no_encoded_words
    (Reference.mailbox_fetch Inputs.one_message) "1" =
    Ok (mkEmail "Weekly deals" (content Scenarios.decoy_then_link)
          "deals@x.com") /\
  fetch_email Reference.codecs_decode Reference.no_encoded_words
    (fun _ => Ok Inputs.raw_subject) "7" = Raise LookupError.
Proof.
  split.
  - destruct (fetch_email_plain_headers Reference.codecs_decode
                Reference.no_encoded_words
                (Reference.mailbox_fetch Inputs.one_message) "1"
                (Scenarios.html_message (content Scenarios.decoy_then_link))
                eq_refl) as [Hplain _].
    apply Hplain; vm_compute; reflexivity.
  - destruct (fetch_email_plain_headers Reference.codecs_decode
                Reference.no_encoded_words
                (fun _ => Ok Inputs.raw_subject) "7" Inputs.raw_subject
                eq_refl) as [_ Hraw].
    apply (Hraw [Byte.x43; Byte.x61; Byte.x66; Byte.xe9]); reflexivity.
Defined.

(** ** Further properties of the link extractor *)

Lemma find_all_snoc (name tag : string) (attrs : gmap string string)
  (contents : list node) (a : node) :
  find_all name (Tag tag attrs (contents ++ [a])) =
  find_all name (Tag tag attrs contents) ++
  List.filter (is_tag_named name) [a] ++ find_all name a.
Proof.
  unfold find_all. cbn [descendants].
  rewrite flat_map_app. cbn [flat_map]. rewrite app_nil_r.
  rewrite List.filter_app.
  change (a :: descendants a) with ([a] ++ descendants a).
  by rewrite List.filter_app.
Qed.

(** X9. A link that [get_unsubscribe_url] returns contains "http" and is the
    link target of an anchor of the parsed document whose text contains
    "unsubscribe", case ignored; it is the last candidate, and no anchor of
    the document has the text without a link target. *)
Theorem get_unsubscribe_url_sound
  (BeautifulSoup : string -> result node) (email_content : Email)
  (url : string) :
  get_unsubscribe_url BeautifulSoup email_content = Ok (Some url) ->
  contains "http" url /\
  exists soup,
    BeautifulSoup (content email_content) = Ok soup /\
    (exists a, a ∈ find_all "a" soup /\ href_of a = Some url /\
               contains_ignoring_case "unsubscribe" (text a)) /\
    last (candidate_links soup) = Some url /\
    some_anchor_lacks_href soup = false.
Proof.
  destruct (BeautifulSoup (content email_content)) as [soup|e0] eqn:Hsoup;
    [|by rewrite (get_unsubscribe_url_rejected _ _ _ Hsoup)].
  rewrite (get_unsubscribe_url_parsed _ _ _ Hsoup).
  destruct (some_anchor_lacks_href soup) eqn:Hl; [done |].
  intros [= Hlast].
  pose proof (last_Some_elem_of _ _ Hlast) as Hin.
  apply candidate_links_iff in Hin as (a & Hin & Hq & Hh).
  unfold qualifies in Hq. rewrite Hh in Hq.
  apply andb_true_iff in Hq as [Ht Hhttp].
  split; [by apply str_in_iff |].
  exists soup. split_and!; try done.
  exists a. split_and!; try done. by apply str_in_lower_iff.
Qed.

Lemma get_unsubscribe_url_sound_witness :
  contains "http" "http://x.com/unsubscribe-final".
Proof.
  apply (get_unsubscribe_url_sound Reference.html_parser
           Scenarios.decoy_then_link "http://x.com/unsubscribe-final").
  vm_compute; reflexivity.
Defined.

Lemma no_text_no_links (a_tags : list node) :
  existsb has_unsubscribe_text a_tags = false ->
  existsb lacks_href a_tags = false /\ omap candidate a_tags = [].
Proof.
  induction a_tags as [|a l IH]; [done |].
  cbn [existsb]. intros H. apply orb_false_iff in H as [Ha Hl].
  destruct (IH Hl) as [IH1 IH2].
  change (omap candidate (a :: l))
    with (match candidate a with
          | Some y => y :: omap candidate l
          | None => omap candidate l
          end).
  rewrite IH1, IH2. unfold lacks_href, candidate, qualifies. by rewrite Ha.
Qed.

(** X10. The href of an anchor is read only when the anchor has the
    unsubscribe text: when no anchor of the parsed document has it,
    [get_unsubscribe_url] returns [None], also when anchors have no href. *)
Theorem get_unsubscribe_url_short_circuit
  (BeautifulSoup : string -> result node) (email_content : Email)
  (soup : node) :
  BeautifulSoup (content email_content) = Ok soup ->
  existsb has_unsubscribe_text (find_all "a" soup) = false ->
  get_unsubscribe_url BeautifulSoup email_content = Ok None.
Proof.
  intros Hsoup H. destruct (no_text_no_links _ H) as [Hl Hc].
  rewrite (get_unsubscribe_url_parsed _ _ _ Hsoup).
  unfold some_anchor_lacks_href, candidate_links. by rewrite Hl, Hc.
Qed.

Lemma get_unsubscribe_url_short_circuit_witness :
  Reference.parse_fragment (content Inputs.anchors_without_text) =
    Some (document [Tag "a" ∅ [NavigableString "Home"];
                    Tag "a" {[ "href" := "http://x.com/shop" ]}
                        [NavigableString "Shop"]]) /\
  get_unsubscribe_url Reference.html_parser Inputs.anchors_without_text =
    Ok None.
Proof.
  split; [vm_compute; reflexivity |].
  apply (get_unsubscribe_url_short_circuit Reference.html_parser
           Inputs.anchors_without_text
           (Reference.tree_of (content Inputs.anchors_without_text)));
    vm_compute; reflexivity.
Defined.

(** X12. The last anchor wins: when the parsed document ends with a
    qualifying anchor that holds no further anchor, and no anchor before it
    has the text without a link target, [get_unsubscribe_url] returns the
    link target of that anchor, whatever qualifies before it. *)
Theorem get_unsubscribe_url_appended_anchor
  (BeautifulSoup : string -> result node) (email_content : Email)
  (contents : list node) (a : node) (href : string) :
  BeautifulSoup (content email_content) = Ok (document (contents ++ [a])) ->
  is_tag_named "a" a = true -> find_all "a" a = [] ->
  qualifies a = true -> href_of a = Some href ->
  some_anchor_lacks_href (document contents) = false ->
  get_unsubscribe_url BeautifulSoup email_content = Ok (Some href).
Proof.
  intros Hsoup Htag Hnested Hq Hh Hbefore.
  rewrite (get_unsubscribe_url_parsed _ _ _ Hsoup).
  unfold some_anchor_lacks_href, candidate_links, document in *.
  rewrite find_all_snoc, Hnested, app_nil_r.
  cbn [List.filter]. rewrite Htag.
  rewrite existsb_app, Hbefore, omap_app. cbn [existsb].
  change (omap candidate [a])
    with (match candidate a with Some y => [y] | None => [] end).
  unfold lacks_href, candidate. rewrite Hq, Hh.
  unfold qualifies in Hq. rewrite Hh in Hq.
  apply andb_true_iff in Hq as [-> _]. cbn.
  by rewrite last_snoc.
Qed.

Lemma get_unsubscribe_url_appended_anchor_witness :
  get_unsubscribe_url Reference.html_parser Scenarios.decoy_then_link =
  Ok (Some "http://x.com/unsubscribe-final").
Proof.
  apply (get_unsubscribe_url_appended_anchor Reference.html_parser
           Scenarios.decoy_then_link
           [Tag "a" {[ "href" := "http://x.com/decoy" ]}
                [NavigableString "click"]]
           (Tag "a" {[ "href" := "http://x.com/unsubscribe-final" ]}
                [NavigableString "Unsubscribe here"]));
    vm_compute; reflexivity.
Defined.

(** ** Further properties of the loop of [main] *)

Section RunFacts.
Variable World : Type.
Variable agent_run : World -> string -> World * result string.
Variable BeautifulSoup : string -> result node.

Abbreviation handle_email := (handle_email World agent_run BeautifulSoup).
Abbreviation main_loop := (main_loop World agent_run BeautifulSoup).
Abbreviation link_to_dispatch := (link_to_dispatch BeautifulSoup).

Abbreviation after_dispatch := (after_dispatch agent_run).

Lemma dispatched_app evs1 evs2 :
  dispatched (evs1 ++ evs2) = dispatched evs1 ++ dispatched evs2.
Proof. apply omap_app. Qed.

Lemma analyzed_app evs1 evs2 :
  analyzed (evs1 ++ evs2) = analyzed evs1 ++ analyzed evs2.
Proof. apply omap_app. Qed.

(** What one turn of the loop shows. *)
Lemma handle_email_observed email_msg w :
  analyzed (events_of (handle_email email_msg w)) = [email_msg] /\
  dispatched (events_of (handle_email email_msg w)) =
    option_list (link_to_dispatch email_msg) /\
  world_of (handle_email email_msg w) =
    foldl after_dispatch w (dispatched (events_of (handle_email email_msg w))).
Proof.
  rewrite handle_email_cases. unfold Observations.link_to_dispatch.
  destruct (str_in _ _); [|done].
  destruct (get_unsubscribe_url BeautifulSoup email_msg) as [[url|]|e];
    [|done..].
  destruct (agent_run w (agent_prompt +:+ url)) as [w' [answer|e]] eqn:E;
    [|destruct (is_exception e)];
    (split_and!; [done | done |]);
    cbn; unfold Observations.after_dispatch; by rewrite E.
Qed.

(** The printed lines of one turn: each call of the agent is answered,
    unless the turn ends at the call with an exception that is no instance
    of [Exception]. *)
Lemma handle_email_answered email_msg w :
  match outcome_of (handle_email email_msg w) with
  | Ok _ =>
      forall rest,
        answered (events_of (handle_email email_msg w) ++ rest) =
        answered rest
  | Raise e =>
      answered (events_of (handle_email email_msg w)) = true \/
      (is_exception e = false /\
       exists pre url,
         events_of (handle_email email_msg w) = pre ++ [CallUnsubscribe url] /\
         answered pre = true)
  end.
Proof.
  rewrite handle_email_cases.
  destruct (str_in _ _); [|done].
  destruct (get_unsubscribe_url BeautifulSoup email_msg) as [[url|]|e];
    [|done | by left].
  destruct (agent_run w (agent_prompt +:+ url)) as [w' [answer|e]]; [done |].
  destruct (is_exception e) eqn:Ee; [done |].
  right. split; [done |].
  by exists [CallAnalyze email_msg; CallGetUrl email_msg], url.
Qed.

Lemma main_loop_observed emails w :
  analyzed (events_of (main_loop emails w)) `prefix_of` emails /\
  dispatched (events_of (main_loop emails w)) `prefix_of`
    omap link_to_dispatch emails /\
  (outcome_of (main_loop emails w) = Ok tt ->
   analyzed (events_of (main_loop emails w)) = emails /\
   dispatched (events_of (main_loop emails w)) =
     omap link_to_dispatch emails) /\
  world_of (main_loop emails w) =
    foldl after_dispatch w (dispatched (events_of (main_loop emails w))).
Proof.
  revert w. induction emails as [|email_msg rest IH]; intros w.
  - rewrite main_loop_nil. by split_and!.
  - rewrite main_loop_cons.
    destruct (handle_email_observed email_msg w) as (Ha & Hd & Hw).
    change (omap link_to_dispatch (email_msg :: rest))
      with (match link_to_dispatch email_msg with
            | Some y => y :: omap link_to_dispatch rest
            | None => omap link_to_dispatch rest
            end).
    assert (Hcons : forall l,
      option_list (link_to_dispatch email_msg) ++ l =
      match link_to_dispatch email_msg with
      | Some y => y :: l
      | None => l
      end) by (intros l; by destruct (link_to_dispatch email_msg)).
    rewrite <- Hcons.
    destruct (handle_email email_msg w) as [[w1 evs1] [[]|e]].
    + unfold events_of, world_of, outcome_of in *. cbn [fst snd] in *.
      destruct (IH w1) as (IHa & IHd & IHo & IHw).
      rewrite !analyzed_app, !dispatched_app, foldl_app, <- Hw, <- IHw, Ha, Hd.
      split_and!.
      * by apply (prefix_cons email_msg).
      * by apply prefix_app.
      * intros Ho. destruct (IHo Ho) as [-> ->]. done.
      * done.
    + unfold events_of, world_of, outcome_of in *. cbn [fst snd] in *.
      rewrite Ha, Hd. split_and!.
      * apply (prefix_cons email_msg), prefix_nil.
      * apply prefix_app_r. done.
      * done.
      * by rewrite <- Hd.
Qed.

Lemma main_loop_answered emails w :
  answered (events_of (main_loop emails w)) = true \/
  exists pre url e,
    events_of (main_loop emails w) = pre ++ [CallUnsubscribe url] /\
    answered pre = true /\
    outcome_of (main_loop emails w) = Raise e /\ is_exception e = false.
Proof.
  revert w. induction emails as [|email_msg rest IH]; intros w.
  - rewrite main_loop_nil. by left.
  - rewrite main_loop_cons.
    pose proof (handle_email_answered email_msg w) as Hans.
    destruct (handle_email email_msg w) as [[w1 evs1] [[]|e]].
    + unfold events_of, outcome_of in *. cbn [fst snd] in *.
      destruct (IH w1) as [Hr | (pre & url & e & Hev & Hpre & Ho & He)].
      * left. by rewrite Hans.
      * right. exists (evs1 ++ pre), url, e.
        rewrite Hev, app_assoc, Hans. done.
    + unfold events_of, outcome_of in *. cbn [fst snd] in *.
      destruct Hans as [Hans | (He & pre & url & Hev & Hpre)]; [by left |].
      right. by exists pre, url, e.
Qed.

Lemma answered_spec evs before url after :
  answered evs = true -> evs = before ++ CallUnsubscribe url :: after ->
  exists ev after', after = ev :: after' /\ is_answer ev = true.
Proof.
  revert evs. induction before as [|b before IH]; intros evs Hans ->.
  - cbn in Hans. destruct after as [|ev after']; [done |].
    apply andb_true_iff in Hans as [Hev _]. by exists ev, after'.
  - apply (IH (before ++ CallUnsubscribe url :: after)); [|done].
    destruct b; try exact Hans.
    cbn in Hans. destruct (before ++ CallUnsubscribe url :: after); [done |].
    by apply andb_true_iff in Hans as [_ Hans].
Qed.

End RunFacts.

(** X13. The loop handles the messages in the order of the batch. The
    messages classified in a run are a prefix of the batch, and the links
    handed to the agent are a prefix of the links of the unwanted messages,
    each at most once; when the loop returns they are all of them. *)
Theorem main_loop_dispatch_order
  (World : Type) (agent_run : World -> string -> World * result string)
  (BeautifulSoup : string -> result node) (emails : list Email) (w : World) :
  analyzed (events_of (main_loop World agent_run BeautifulSoup emails w))
    `prefix_of` emails /\
  dispatched (events_of (main_loop World agent_run BeautifulSoup emails w))
    `prefix_of` omap (link_to_dispatch BeautifulSoup) emails /\
  (outcome_of (main_loop World agent_run BeautifulSoup emails w) = Ok tt ->
   analyzed (events_of (main_loop World agent_run BeautifulSoup emails w))
     = emails /\
   dispatched (events_of (main_loop World agent_run BeautifulSoup emails w))
     = omap (link_to_dispatch BeautifulSoup) emails).
Proof.
  destruct (main_loop_observed World agent_run BeautifulSoup emails w)
    as (Ha & Hd & Ho & _).
  by split_and!.
Qed.

Lemma main_loop_dispatch_order_witness :
  dispatched
    (events_of
       (main_loop (list (result string)) Reference.scripted_agent
          Reference.html_parser
          [Scenarios.three_links; Scenarios.personal_note;
           Scenarios.relative_link; Scenarios.decoy_then_link]
          [Raise (OtherException "TimeoutError"); Ok "done"])) =
  ["http://a.example/3"; "http://x.com/unsubscribe-final"].
Proof.
  destruct (main_loop_dispatch_order (list (result string))
              Reference.scripted_agent Reference.html_parser
              [Scenarios.three_links; Scenarios.personal_note;
               Scenarios.relative_link; Scenarios.decoy_then_link]
              [Raise (OtherException "TimeoutError"); Ok "done"])
    as (_ & _ & Hall).
  destruct Hall as [_ Hd]; [vm_compute; reflexivity |].
  rewrite Hd. vm_compute; reflexivity.
Defined.

(** X14. The agent is called once for each dispatched link, one call after
    the other: the world after a run is the world after these calls, in
    the order of the dispatch. *)
Theorem main_loop_world
  (World : Type) (agent_run : World -> string -> World * result string)
  (BeautifulSoup : string -> result node) (emails : list Email) (w : World) :
  world_of (main_loop World agent_run BeautifulSoup emails w) =
  foldl (after_dispatch agent_run) w
    (dispatched (events_of (main_loop World agent_run BeautifulSoup emails w))).
Proof.
  by destruct (main_loop_observed World agent_run BeautifulSoup emails w)
    as (_ & _ & _ & Hw).
Qed.

(** X15. The loop over a batch in two pieces: when the loop over the first
    piece returns, the second piece is handled from the world the first
    left, and the events follow each other; when it raises, the second piece
    is not touched. *)
Theorem main_loop_app
  (World : Type) (agent_run : World -> string -> World * result string)
  (BeautifulSoup : string -> result node) (before after : list Email) (w : World) :
  main_loop World agent_run BeautifulSoup (before ++ after) w =
  match main_loop World agent_run BeautifulSoup before w with
  | (w1, evs1, Ok _) =>
      (world_of (main_loop World agent_run BeautifulSoup after w1),
       evs1 ++ events_of (main_loop World agent_run BeautifulSoup after w1),
       outcome_of (main_loop World agent_run BeautifulSoup after w1))
  | (w1, evs1, Raise e) => (w1, evs1, Raise e)
  end.
Proof.
  revert w. induction before as [|b before IH]; intros w.
  - rewrite app_nil_l, main_loop_nil.
    by destruct (main_loop _ _ _ after w) as [[w1 evs1] r].
  - rewrite <- app_comm_cons, !main_loop_cons.
    destruct (handle_email _ _ _ b w) as [[wb evsb] [[]|eb]]; [|done].
    rewrite IH.
    destruct (main_loop _ _ _ before wb) as [[w1 evs1] [[]|e]];
      unfold world_of, events_of, outcome_of; cbn; [|done].
    by rewrite app_assoc.
Qed.

Lemma omap_length_le {A B} (f : A -> option B) (l : list A) :
  length (omap f l) <= length l.
Proof.
  induction l as [|x l IH]; [done |].
  change (omap f (x :: l))
    with (match f x with Some y => y :: omap f l | None => omap f l end).
  destruct (f x); simpl; lia.
Qed.

(** X16. A run of [main] classifies at most 100 messages and calls the agent
    at most 100 times. *)
Theorem main_at_most_hundred
  (World : Type) (agent_run : World -> string -> World * result string)
  (BeautifulSoup : string -> result node)
  (bytes_decode : string -> list byte -> result string)
  (decode_words : string -> result (list (segment * option string)))
  (search_all : result (list string)) (fetch : string -> result Fetched)
  (w : World) :
  length (analyzed (events_of
            (main World agent_run BeautifulSoup bytes_decode decode_words
                  search_all fetch w))) <= 100 /\
  length (dispatched (events_of
            (main World agent_run BeautifulSoup bytes_decode decode_words
                  search_all fetch w))) <= 100.
Proof.
  rewrite main_cases.
  destruct (connect_to_email _ _ _ _) as [emails|e] eqn:Hc;
    [|cbn; lia].
  assert (Hlen : length emails <= 100).
  { unfold connect_to_email in Hc. destruct search_all as [ids|e]; [|done].
    cbn in Hc. rewrite (mapM_length _ _ _ Hc), last_n_length. lia. }
  destruct (main_loop_observed World agent_run BeautifulSoup emails w)
    as (Ha & Hd & _).
  apply prefix_length in Ha, Hd.
  pose proof (omap_length_le (link_to_dispatch BeautifulSoup) emails). lia.
Qed.

(** X17. No dispatch goes unanswered, but for an interrupt: in a run of the
    loop every call of the agent is directly followed by a printed line,
    the answer of the agent or the exception that was caught, unless the
    agent raised an exception that is no instance of [Exception]; then the
    call is the last event and the run ends with that exception. *)
Theorem main_loop_every_dispatch_answered
  (World : Type) (agent_run : World -> string -> World * result string)
  (BeautifulSoup : string -> result node) (emails : list Email) (w : World)
  (before after : list event) (url : string) :
  events_of (main_loop World agent_run BeautifulSoup emails w) =
    before ++ CallUnsubscribe url :: after ->
  (exists ev after', after = ev :: after' /\ is_answer ev = true) \/
  (after = [] /\
   exists e,
     outcome_of (main_loop World agent_run BeautifulSoup emails w) = Raise e /\
     is_exception e = false).
Proof.
  intros Hev.
  destruct (main_loop_answered World agent_run BeautifulSoup emails w)
    as [Hans | (pre & url' & e & Hcut & Hpre & Ho & He)].
  - left. by eapply answered_spec.
  - rewrite Hcut in Hev.
    destruct after as [|x after _] using rev_ind.
    + right. split; [done |]. by exists e.
    + left. rewrite app_comm_cons, app_assoc in Hev.
      apply app_inj_tail in Hev as [Hpre' _].
      destruct (answered_spec _ _ _ _ Hpre Hpre') as (ev & after' & -> & Hev).
      by exists ev, (after' ++ [x]).
Qed.

Lemma main_loop_every_dispatch_answered_witness :
  (exists ev after',
     [PrintError (OtherException "TimeoutError")] = ev :: after' /\
     is_answer ev = true) \/
  ([PrintError (OtherException "TimeoutError")] = [] /\
   exists e,
     outcome_of
       (main_loop (list (result string)) Reference.scripted_agent
          Reference.html_parser [Scenarios.decoy_then_link]
          [Raise (OtherException "TimeoutError")]) = Raise e /\
     is_exception e = false).
Proof.
  apply (main_loop_every_dispatch_answered (list (result string))
           Reference.scripted_agent Reference.html_parser
           [Scenarios.decoy_then_link]
           [Raise (OtherException "TimeoutError")]
           [CallAnalyze Scenarios.decoy_then_link;
            CallGetUrl Scenarios.decoy_then_link]
           [PrintError (OtherException "TimeoutError")]
           "http://x.com/unsubscribe-final").
  vm_compute; reflexivity.
Defined.

(** An interrupt of the agent: the call is the last event, nothing is
    printed, and the second message is not looked at. *)
Example keyboard_interrupt_leaves_the_loop :
  main_loop (list (result string)) Reference.scripted_agent
    Reference.html_parser
    [Scenarios.decoy_then_link; Scenarios.three_links]
    [Raise (NonException "KeyboardInterrupt"); Ok "done"] =
  ([Ok "done"],
   [CallAnalyze Scenarios.decoy_then_link;
    CallGetUrl Scenarios.decoy_then_link;
    CallUnsubscribe "http://x.com/unsubscribe-final"],
   Raise (NonException "KeyboardInterrupt")).
Proof. vm_compute; reflexivity. Qed.

(** ** The confirmation prompt *)

Lemma lower_char_y (c : ascii) :
  lower_char c = "y"%char <-> c = "y"%char \/ c = "Y"%char.
Proof.
  destruct c as [[] [] [] [] [] [] [] []]; vm_compute;
    (split; [intros H; first [discriminate H | auto]
            | intros [H|H]; first [discriminate H | reflexivity]]).
Qed.

Lemma lower_y (s : string) : lower s = "y" <-> s = "y" \/ s = "Y".
Proof.
  destruct s as [|c [|d s]].
  - split; [done | by intros [|]].
  - change (lower (String c "")) with (String (lower_char c) "").
    split.
    + intros [= H]. apply lower_char_y in H as [->| ->]; auto.
    + intros [[= ->] | [= ->]]; reflexivity.
  - split; [done | by intros [|]].
Qed.

(** X19. [interact_with_user] prints the subject and the sender, asks, and
    takes exactly the answers "y" and "Y" for a yes; any other line is a no.
    When the input raises, so does the call. *)
Theorem interact_with_user_yes
  (World : Type) (input : World -> string -> World * result string)
  (email_msg : Email) (w : World) :
  (forall w' choice,
     input w confirmation_prompt = (w', Ok choice) ->
     interact_with_user World input email_msg w =
     (w',
      [Print ("Subject: " +:+ subject email_msg +:+ tab +:+
              "From: " +:+ from_address email_msg)],
      Ok (bool_decide (choice = "y" \/ choice = "Y")))) /\
  (forall w' e,
     input w confirmation_prompt = (w', Raise e) ->
     interact_with_user World input email_msg w =
     (w',
      [Print ("Subject: " +:+ subject email_msg +:+ tab +:+
              "From: " +:+ from_address email_msg)],
      Raise e)).
Proof.
  split.
  - intros w' choice H. unfold interact_with_user, io_bind, emit, io_ret.
    rewrite H. cbn. do 2 f_equal.
    destruct (String.eqb (lower choice) "y") eqn:E.
    + apply String.eqb_eq, lower_y in E. by rewrite bool_decide_true.
    + apply String.eqb_neq in E. rewrite bool_decide_false; [done |].
      intros Hy. by apply E, lower_y.
  - intros w' e H. unfold interact_with_user, io_bind, emit, io_ret.
    by rewrite H.
Qed.

Lemma interact_with_user_yes_witness :
  outcome_of (interact_with_user (list string) Inputs.scripted_input
                Scenarios.personal_note ["Y"; "yes"]) = Ok true /\
  outcome_of (interact_with_user (list string) Inputs.scripted_input
                Scenarios.personal_note ["yes"; "Y"]) = Ok false.
Proof.
  split.
  - destruct (interact_with_user_yes (list string) Inputs.scripted_input
                Scenarios.personal_note ["Y"; "yes"]) as [Hline _].
    by rewrite (Hline ["yes"] "Y" eq_refl).
  - destruct (interact_with_user_yes (list string) Inputs.scripted_input
                Scenarios.personal_note ["yes"; "Y"]) as [Hline _].
    by rewrite (Hline ["Y"] "yes" eq_refl).
Defined.

(** ** Further properties of the classifier and of the errors of a run *)

(** X8. The verdict of [analyze_email] depends on the content only, not on
    its case, and adding text around the content never turns an unwanted
    message into a wanted one. *)
Theorem analyze_email_monotone (email_msg other : Email) :
  (lower (content email_msg) = lower (content other) ->
   analyze_email email_msg = analyze_email other) /\
  (contains (content email_msg) (content other) ->
   dict_getitem (analyze_email email_msg) "is_unwanted" = Ok true ->
   dict_getitem (analyze_email other) "is_unwanted" = Ok true).
Proof.
  split.
  - intros H. unfold analyze_email. by rewrite H.
  - intros (pre & post & Hc). rewrite !analyze_email_getitem.
    intros [= Hu]. f_equal.
    apply (str_in_lower_iff "unsubscribe" _ eq_refl) in Hu
      as (a & mid & b & Hm & Hl).
    apply (str_in_lower_iff "unsubscribe" _ eq_refl).
    exists (pre +:+ a), mid, (b +:+ post). split; [|done].
    by rewrite Hc, Hm, !append_assoc.
Qed.

Lemma analyze_email_monotone_witness :
  dict_getitem
    (analyze_email (mkEmail "Fwd" ("Forwarded: " +:+
                                   content Scenarios.relative_link +:+
                                   " -- sent from my phone") "me@c.example"))
    "is_unwanted" = Ok true.
Proof.
  destruct (analyze_email_monotone Scenarios.relative_link
              (mkEmail "Fwd" ("Forwarded: " +:+
                              content Scenarios.relative_link +:+
                              " -- sent from my phone") "me@c.example"))
    as [_ Hmono].
  apply Hmono.
  - by exists "Forwarded: ", " -- sent from my phone".
  - vm_compute; reflexivity.
Defined.

(** X11. [get_unsubscribe_url] raises in two cases only: the parser rejects
    the content, and its exception leaves the call; or the parsed document
    has an anchor with the unsubscribe text and no href attribute, and the
    exception is [KeyError] for "href". *)
Theorem get_unsubscribe_url_raises_iff
  (BeautifulSoup : string -> result node) (email_content : Email) (e : exn) :
  get_unsubscribe_url BeautifulSoup email_content = Raise e <->
  BeautifulSoup (content email_content) = Raise e \/
  (exists soup,
     BeautifulSoup (content email_content) = Ok soup /\
     e = KeyError "href" /\
     exists a, a ∈ find_all "a" soup /\
               has_unsubscribe_text a = true /\ href_of a = None).
Proof.
  destruct (BeautifulSoup (content email_content)) as [soup|e0] eqn:Hsoup.
  - rewrite (get_unsubscribe_url_parsed _ _ _ Hsoup).
    destruct (some_anchor_lacks_href soup) eqn:Hl.
    + split.
      * intros [= <-]. right. exists soup. split_and!; try done.
        by apply some_anchor_lacks_href_iff.
      * intros [H | (soup' & _ & -> & _)]; [discriminate | done].
    + split; [done |].
      intros [H | (soup' & [= <-] & _ & Ha)]; [discriminate |].
      apply some_anchor_lacks_href_iff in Ha. congruence.
  - rewrite (get_unsubscribe_url_rejected _ _ _ Hsoup). split.
    + intros [= <-]. by left.
    + intros [[= <-] | (soup & H & _)]; [done | discriminate].
Qed.

(** X18. An exception leaves the loop of [main] only at a message that is
    classified unwanted, and only in two ways: the link extraction raises
    it (the exception of the parser, or [KeyError] for "href"), or the
    agent raises it for the link of that message and it is no instance of
    [Exception]. No instance of [Exception] raised by the agent ever leaves
    the loop. *)
Theorem main_loop_raise_origin
  (World : Type) (agent_run : World -> string -> World * result string)
  (BeautifulSoup : string -> result node) (emails : list Email) (w : World)
  (e : exn) :
  outcome_of (main_loop World agent_run BeautifulSoup emails w) = Raise e ->
  exists email_msg,
    email_msg ∈ emails /\
    dict_getitem (analyze_email email_msg) "is_unwanted" = Ok true /\
    (get_unsubscribe_url BeautifulSoup email_msg = Raise e \/
     (is_exception e = false /\
      exists url w0 w',
        get_unsubscribe_url BeautifulSoup email_msg = Ok (Some url) /\
        agent_run w0 (agent_prompt +:+ url) = (w', Raise e))).
Proof.
  intros He. apply main_loop_raise in He as (m & w0 & Hin & Hm).
  apply handle_email_raise in Hm as [Hu Hm].
  exists m. split; [done |]. split; [by rewrite analyze_email_getitem, Hu |].
  destruct Hm as [Hm | (Hne & url & w' & Hurl & Ha)]; [by left |].
  right. split; [done |]. by exists url, w0, w'.
Qed.

Lemma main_loop_raise_origin_witness :
  exists email_msg,
    email_msg ∈ [Scenarios.personal_note; Scenarios.anchor_without_href] /\
    dict_getitem (analyze_email email_msg) "is_unwanted" = Ok true /\
    (get_unsubscribe_url Reference.html_parser email_msg =
       Raise (KeyError "href") \/
     (is_exception (KeyError "href") = false /\
      exists url w0 w',
        get_unsubscribe_url Reference.html_parser email_msg = Ok (Some url) /\
        Reference.scripted_agent w0 (agent_prompt +:+ url) =
          (w', Raise (KeyError "href")))).
Proof.
  apply (main_loop_raise_origin (list (result string))
           Reference.scripted_agent Reference.html_parser
           [Scenarios.personal_note; Scenarios.anchor_without_href] []).
  vm_compute; reflexivity.
Defined.
